(** * azurerm_resource_missing_tags: the missing-tag rule and its resolver

    A shallow embedding of [rules/azurerm_resource_missing_tags.go]:
    the recursive resolver [evaluateMissingTags], the issue builder
    [emitIssue], and the driver [Check], followed by the properties the
    design document states about them.

    Go maps used as sets ([map[string]struct{}]) are [gset string].
    The evaluated tags value ([cty.Value]) is a small inductive type that
    keeps the distinctions the rule makes: null, unknown, primitive-typed,
    object-typed, and the collections as far as their conversion to a map
    differs.  A Go
    [map[string]cty.Value] is an association list: the list order stands
    for the order in which [range] happens to visit the entries, and
    [evalAny] below lets every loop choose an order of its own. *)

From stdpp Require Import base gmap sets list strings.

(* stdpp's solvers clear hypotheses that may already be gone *)
#[local] Set Warnings "-clear-no-such-hyp".

Local Open Scope string_scope.

(** ** Values of the configuration language (go-cty, as far as the rule looks) *)

Inductive Primitive : Type :=
  | PString (s : string)
  | PNumber (n : Z)
  | PBool (b : bool).

(** The rule tests [IsNull] and converts with [AsValueMap] at the root
    only; of a nested entry it looks at the type alone.  So a null at the
    root is [NilVal] whatever its type, and a nested entry of primitive
    type is a [PrimitiveVal] whether or not it is null or known. *)
Unset Elimination Schemes.
Inductive Value : Type :=
  | NilVal                                    (* cty.NilVal, [null]: IsNull(), no type *)
  | DynamicVal                                (* cty.DynamicVal: unknown value of unknown type *)
  | PrimitiveVal (p : Primitive)              (* of type string, number or bool: Type().IsPrimitiveType() *)
  | ObjectVal (attrs : list (string * Value)) (* a known object: Type().IsObjectType() *)
  | SeqVal                                    (* a non-empty list or tuple, or a non-empty
                                                 set of other than strings *)
  | EmptySeqVal                               (* an empty list, set or tuple *)
  | StringSetVal (elems : list string)        (* a set of strings *)
  | MapVal (elems : list (string * Value)).   (* a known map *)
Set Elimination Schemes.

Definition IsNull (v : Value) : bool :=
  match v with NilVal => true | _ => false end.

Definition IsObjectType (v : Value) : bool :=
  match v with ObjectVal _ => true | _ => false end.

Definition IsPrimitiveType (v : Value) : bool :=
  match v with PrimitiveVal _ => true | _ => false end.

(** [cty.Value.AsValueMap]: the attributes of an object and the elements
    of a map; the nil map for a collection of length 0; for a set of
    strings, where an element is its own key, the map of each string to
    itself.  It panics ([None]) on a value that is not known, on a value
    that is not a collection, and on a collection whose keys are not
    strings: the indices of a list or tuple, the elements of another set. *)
Definition AsValueMap (v : Value) : option (list (string * Value)) :=
  match v with
  | ObjectVal attrs => Some attrs
  | MapVal elems => Some elems
  | StringSetVal elems => Some (map (fun s => (s, PrimitiveVal (PString s))) elems)
  | EmptySeqVal => Some []
  | NilVal | DynamicVal | PrimitiveVal _ | SeqVal => None
  end.

(** ** Rule configuration *)

Record azurermResourceTagsRuleConfig : Type := {
  Tags : list string;
  Exclude : list string
}.

Definition tagsAttributeName : string := "tags".

(** ** The resolver *)

(** The two maps [missing] and [tagsAlreadyIncluded] are created once by
    [emitIssue] and the same two objects are handed to every recursive
    call, which mutates them in place.  [TagMaps] is that shared store. *)
Record TagMaps : Type := {
  missing : gset string;
  tagsAlreadyIncluded : gset string
}.

(** [maps.Copy(dst, src)]: every key of [src] is put into [dst]. *)
Definition mapsCopy (dst src : gset string) : gset string := dst ∪ src.

(** [_, ok := mapValue[key]] *)
Definition hasKey (key : string) (mapValue : list (string * Value)) : bool :=
  existsb (fun entry => String.eqb entry.1 key) mapValue.

(** [for _, x := range xs { body }] over a store. *)
Definition forRange {A S : Type} (xs : list A) (body : A → S → S) (s : S) : S :=
  fold_left (fun s x => body x s) xs s.

Section resolver.
Variable config : azurermResourceTagsRuleConfig.

(** The body of the inner loop, for one entry [tagName ↦ attributeValue]
    of [mapValue] while the outer loop is at [requiredTag].  [recur] is
    the recursive call on [attributeValue.AsValueMap()]. *)
Definition visitEntry (recur : Value → TagMaps → TagMaps)
    (mapValue : list (string * Value)) (requiredTag : string)
    (entry : string * Value) (m : TagMaps) : TagMaps :=
  let tagName := entry.1 in
  let attributeValue := entry.2 in
  match attributeValue with
  | ObjectVal _ =>
      (* the nested call returns the shared [missing] map itself, so
         [nestedMissingTags] and [missing] are one object and the copy
         is from that object into itself *)
      let m' := recur attributeValue m in
      {| missing := mapsCopy (missing m') (missing m');
         tagsAlreadyIncluded := tagsAlreadyIncluded m' |}
  | PrimitiveVal _ =>
      if String.eqb tagName requiredTag then
        {| missing := missing m ∖ {[tagName]};
           tagsAlreadyIncluded := {[tagName]} ∪ tagsAlreadyIncluded m |}
      else
        let tagNameIncludedAtThisLayer := hasKey requiredTag mapValue in
        let tagNameIncludedAtDifferentLayer :=
          bool_decide (requiredTag ∈ tagsAlreadyIncluded m) in
        if negb tagNameIncludedAtThisLayer && negb tagNameIncludedAtDifferentLayer then
          {| missing := {[requiredTag]} ∪ missing m;
             tagsAlreadyIncluded := tagsAlreadyIncluded m |}
        else m
  | NilVal | DynamicVal | SeqVal | EmptySeqVal | StringSetVal _ | MapVal _ => m
  end.

(** The two nested loops, over [config.Tags] and over the entries of
    [mapValue]. *)
Definition visitMap (recur : Value → TagMaps → TagMaps)
    (mapValue : list (string * Value)) (m : TagMaps) : TagMaps :=
  forRange (Tags config) (fun requiredTag =>
    forRange mapValue (visitEntry recur mapValue requiredTag)) m.

(** The recursion follows the nesting of the value: [evaluateObject v]
    is [evaluateMissingTags(v.AsValueMap(), ...)] for an object [v]. *)
Fixpoint evaluateObject (v : Value) (m : TagMaps) {struct v} : TagMaps :=
  match v with
  | ObjectVal mapValue => visitMap evaluateObject mapValue m
  | NilVal | DynamicVal | PrimitiveVal _ | SeqVal
  | EmptySeqVal | StringSetVal _ | MapVal _ => m
  end.

Definition evaluateMissingTags (mapValue : list (string * Value))
    (missing0 tagsAlreadyIncluded0 : gset string) : TagMaps :=
  evaluateObject (ObjectVal mapValue)
    {| missing := missing0; tagsAlreadyIncluded := tagsAlreadyIncluded0 |}.
End resolver.

(** ** Strings *)

(** [strings.Join(elems, sep)] *)
Fixpoint Join (elems : list string) (sep : string) : string :=
  match elems with
  | [] => ""
  | [s] => s
  | s :: rest => s +:+ sep +:+ Join rest sep
  end.

(** [fmt.Sprintf("The resource is missing the following tags: %s.", wantedString)] *)
Definition issueMessage (wantedString : string) : string :=
  "The resource is missing the following tags: " +:+ wantedString +:+ ".".

Fixpoint stringInSlice (a : string) (list : list string) : bool :=
  match list with
  | [] => false
  | b :: rest => if String.eqb b a then true else stringInSlice a rest
  end.

(** ** The host: locations, issues, errors, the runner *)

Record Pos : Type := { Line : nat; Column : nat }.

Record Range : Type := { Filename : string; Start : Pos; Stop : Pos }.

(** An issue as [runner.EmitIssue(r, message, location)] records it; the
    rule is always this rule. *)
Record Issue : Type := { Message : string; IssueRange : Range }.

(** The errors of the plugin SDK that [EnsureNoError] tells apart, and
    every other error. *)
Inductive Error : Type :=
  | ErrUnevaluable
  | ErrNullValue
  | ErrUnknownValue
  | OtherError (msg : string).

Inductive Result (A : Type) : Type :=
  | Ok (a : A)
  | Err (e : Error).
Arguments Ok {A} a.
Arguments Err {A} e.

(** The order in which Go's [range] visits the keys of a map is not
    specified.  [GoRuntime] is one choice of that order for the string
    sets of this file. *)
Record GoRuntime : Type := {
  rangeKeys : gset string → list string;
  rangeKeys_perm : ∀ s, rangeKeys s ≡ₚ elements s
}.

Definition sortedRuntime : GoRuntime :=
  {| rangeKeys := elements; rangeKeys_perm := λ s, reflexivity (elements s) |}.

(** A computation of the rule: it appends to the runner's issues and
    yields a value, or panics. *)
Inductive Outcome (A : Type) : Type :=
  | Done (a : A) (issues : list Issue)
  | Panic.
Arguments Done {A} a issues.
Arguments Panic {A}.

Definition M (A : Type) : Type := list Issue → Outcome A.

Global Instance M_ret : MRet M := λ A a issues, Done a issues.

Global Instance M_bind : MBind M := λ A B k c issues,
  match c issues with
  | Done a issues' => k a issues'
  | Panic => Panic
  end.

Definition EmitIssue (message : string) (location : Range) : M unit :=
  λ issues, Done tt (issues ++ [{| Message := message; IssueRange := location |}]).

Definition panic {A : Type} : M A := λ _, Panic.

Definition ret {A : Type} (a : A) : M A := mret a.

(** [runner.EnsureNoError(err, proc)] of the plugin SDK. *)
Definition EnsureNoError (err : option Error) (proc : M (option Error)) : M (option Error) :=
  match err with
  | None => proc
  | Some ErrUnevaluable | Some ErrNullValue | Some ErrUnknownValue => ret None
  | Some e => ret (Some e)
  end.

(** The [tags] attribute of a resource block, as the rule uses it. *)
Record Attribute : Type := {
  ExprValue : Value;             (* attribute.Expr.Value(&hcl.EvalContext{}), diagnostics dropped *)
  EvaluateExpr : Result Value;   (* runner.EvaluateExpr(attribute.Expr, &value, ...) *)
  ExprRange : Range              (* attribute.Expr.Range() *)
}.

(** A resource block; a resource always carries its two labels. *)
Record Block : Type := {
  Labels : string * string;
  tagsAttribute : option Attribute;   (* resource.Body.Attributes["tags"] *)
  DefRange : Range
}.

Record Runner : Type := {
  DecodeRuleConfig : Result azurermResourceTagsRuleConfig;
  GetResourceContent : string → Result (list Block)
}.

(** ** emitIssue and Check *)

Section rule.
Variable rt : GoRuntime.

Definition emitIssue (tags : Value) (config : azurermResourceTagsRuleConfig)
    (location : Range) : M unit :=
  if IsNull tags then
    let wantedString := Join (Tags config) ", " in
    EmitIssue (issueMessage wantedString) location
  else
    match AsValueMap tags with
    | None => panic
    | Some mapValue =>
        let emptyMissing : gset string := ∅ in
        let tagsAlreadyIncluded : gset string := ∅ in
        let missing :=
          missing (evaluateMissingTags config mapValue emptyMissing tagsAlreadyIncluded) in
        if bool_decide (0 < size missing) then
          let wanted := rangeKeys rt missing in
          let wantedString := Join wanted ", " in
          EmitIssue (issueMessage wantedString) location
        else ret tt
    end.

(** The body of the loop over [resources.Blocks].  [err] is the variable
    of [Check] that [GetResourceContent] assigned; the result of
    [runner.EvaluateExpr] is not assigned to anything.  The result is
    the value of [err] after the body. *)
Definition checkBlock (config : azurermResourceTagsRuleConfig)
    (err : option Error) (resource : Block) : M (option Error) :=
  match tagsAttribute resource with
  | Some attribute =>
      let value := ExprValue attribute in
      let value := match EvaluateExpr attribute with
                   | Ok evaluated => evaluated
                   | Err _ => value
                   end in
      EnsureNoError err
        (emitIssue value config (ExprRange attribute) ;; ret None)
  | None =>
      emitIssue NilVal config (DefRange resource) ;; ret err
  end.

(** The loop over the blocks: [Some e] when the body made [Check]
    return [e], [None] when the loop ran to its end. *)
Fixpoint checkBlocks (config : azurermResourceTagsRuleConfig)
    (err : option Error) (blocks : list Block) : M (option Error) :=
  match blocks with
  | [] => ret None
  | resource :: rest =>
      err' ← checkBlock config err resource;
      match tagsAttribute resource, err' with
      | Some _, Some e => ret (Some e)
      | _, _ => checkBlocks config err' rest
      end
  end.

(** The loop over [Resources], the table of taggable resource types,
    which lives in another file of the package and is a parameter here. *)
Fixpoint checkResourceTypes (runner : Runner) (config : azurermResourceTagsRuleConfig)
    (resourceTypes : list string) : M (option Error) :=
  match resourceTypes with
  | [] => ret None
  | resourceType :: rest =>
      if stringInSlice resourceType (Exclude config) then
        checkResourceTypes runner config rest
      else
        match GetResourceContent runner resourceType with
        | Err e => ret (Some e)
        | Ok blocks =>
            returned ← checkBlocks config None blocks;
            match returned with
            | Some e => ret (Some e)
            | None => checkResourceTypes runner config rest
            end
        end
  end.

Definition Check (Resources : list string) (runner : Runner) : M (option Error) :=
  match DecodeRuleConfig runner with
  | Err e => ret (Some e)
  | Ok config => checkResourceTypes runner config Resources
  end.
End rule.

(** ** What the design document calls the tree *)

(** [leafIn name v]: the object [v] has, at some depth, an entry with key
    [name] whose value is primitive (a Leaf named [name]). *)
Fixpoint leafIn (name : string) (v : Value) {struct v} : bool :=
  match v with
  | ObjectVal attrs =>
      existsb (fun entry =>
        match entry.2 with
        | PrimitiveVal _ => String.eqb entry.1 name
        | ObjectVal _ => leafIn name entry.2
        | _ => false
        end) attrs
  | _ => false
  end.

(** [groupingKeyIn name v]: [name] is, at some depth of the object [v],
    the key of a nested object (a Grouping named [name]). *)
Fixpoint groupingKeyIn (name : string) (v : Value) {struct v} : bool :=
  match v with
  | ObjectVal attrs =>
      existsb (fun entry =>
        match entry.2 with
        | ObjectVal _ => String.eqb entry.1 name || groupingKeyIn name entry.2
        | _ => false
        end) attrs
  | _ => false
  end.

(** One layer marks [name] as missing when it holds a primitive entry and
    no entry of the layer, of whatever kind, has the key [name]. *)
Definition layerLacks (name : string) (mapValue : list (string * Value)) : bool :=
  negb (hasKey name mapValue) && existsb (fun entry => IsPrimitiveType entry.2) mapValue.

(** [lacking name v]: some layer of the object [v], at any depth, marks
    [name] as missing. *)
Fixpoint lacking (name : string) (v : Value) {struct v} : bool :=
  match v with
  | ObjectVal attrs =>
      layerLacks name attrs || existsb (fun entry => lacking name entry.2) attrs
  | _ => false
  end.

(** The resolver of the design document, in its words: collect the keys
    of all leaves, then keep the required names that are not among them. *)
Definition Resolve_spec (required : list string) (root : Value) : gset string :=
  list_to_set (filter (λ name, leafIn name root = false) required).

(** Two trees of the same shape whose groupings list their entries in a
    different order. *)
Inductive reordered : Value → Value → Prop :=
  | reordered_same v : reordered v v
  | reordered_object attrs attrs' :
      reorderedEntries attrs attrs' → reordered (ObjectVal attrs) (ObjectVal attrs')
with reorderedEntries : list (string * Value) → list (string * Value) → Prop :=
  | reordered_nil : reorderedEntries [] []
  | reordered_skip key v v' attrs attrs' :
      reordered v v' → reorderedEntries attrs attrs' →
      reorderedEntries ((key, v) :: attrs) ((key, v') :: attrs')
  | reordered_swap entry1 entry2 attrs :
      reorderedEntries (entry1 :: entry2 :: attrs) (entry2 :: entry1 :: attrs)
  | reordered_trans attrs1 attrs2 attrs3 :
      reorderedEntries attrs1 attrs2 → reorderedEntries attrs2 attrs3 →
      reorderedEntries attrs1 attrs3.

Scheme reordered_mut := Minimality for reordered Sort Prop
  with reorderedEntries_mut := Minimality for reorderedEntries Sort Prop.

(** The set of names the rule reports for an evaluated [tags] value, when
    [emitIssue] gets as far as reporting: all of [config.Tags] for a null
    value, the resolver's result for a value that converts to a map. *)
Definition MissingTagSet (config : azurermResourceTagsRuleConfig) (tags : Value)
    : option (gset string) :=
  if IsNull tags then Some (list_to_set (Tags config))
  else (λ mapValue, missing (evaluateMissingTags config mapValue ∅ ∅)) <$> AsValueMap tags.

(** ** Runs under any visiting order *)

(** Go does not fix the order in which [range mapValue] yields the
    entries, and two loops over the same map need not agree.  [evalAny]
    is [evaluateMissingTags] where every execution of the inner loop
    visits the entries in an order of its own. *)
Inductive evalAny (config : azurermResourceTagsRuleConfig)
    : list (string * Value) → TagMaps → TagMaps → Prop :=
  | evalAny_tags mapValue m m' :
      outerAny config mapValue (Tags config) m m' → evalAny config mapValue m m'
with outerAny (config : azurermResourceTagsRuleConfig)
    : list (string * Value) → list string → TagMaps → TagMaps → Prop :=
  | outerAny_done mapValue m : outerAny config mapValue [] m m
  | outerAny_tag mapValue requiredTag rest order m m' m'' :
      order ≡ₚ mapValue →
      innerAny config mapValue requiredTag order m m' →
      outerAny config mapValue rest m' m'' →
      outerAny config mapValue (requiredTag :: rest) m m''
with innerAny (config : azurermResourceTagsRuleConfig)
    : list (string * Value) → string → list (string * Value) → TagMaps → TagMaps → Prop :=
  | innerAny_done mapValue requiredTag m : innerAny config mapValue requiredTag [] m m
  | innerAny_object mapValue requiredTag tagName attrs rest m nested m' :
      evalAny config attrs m nested →
      innerAny config mapValue requiredTag rest
        (visitEntry (λ _ _, nested) mapValue requiredTag (tagName, ObjectVal attrs) m) m' →
      innerAny config mapValue requiredTag ((tagName, ObjectVal attrs) :: rest) m m'
  | innerAny_other mapValue requiredTag tagName attributeValue rest m m' :
      IsObjectType attributeValue = false →
      innerAny config mapValue requiredTag rest
        (visitEntry (λ _ m, m) mapValue requiredTag (tagName, attributeValue) m) m' →
      innerAny config mapValue requiredTag ((tagName, attributeValue) :: rest) m m'.

Scheme evalAny_mut := Minimality for evalAny Sort Prop
  with outerAny_mut := Minimality for outerAny Sort Prop
  with innerAny_mut := Minimality for innerAny Sort Prop.

(** ** What one run does to one name *)

(** For a single name the two maps hold two bits, and every step of the
    resolver does one of three things to them. *)
Inductive Effect : Type :=
  | Keep    (* nothing *)
  | Add     (* put the name into [missing] unless it is in [tagsAlreadyIncluded] *)
  | Found.  (* delete it from [missing], put it into [tagsAlreadyIncluded] *)

Definition join (e1 e2 : Effect) : Effect :=
  match e1, e2 with
  | Found, _ | _, Found => Found
  | Add, _ | _, Add => Add
  | Keep, Keep => Keep
  end.

Definition act (e : Effect) (s : bool * bool) : bool * bool :=
  match e with
  | Keep => s
  | Add => (s.1 || negb s.2, s.2)
  | Found => (false, true)
  end.

Definition view (name : string) (m : TagMaps) : bool * bool :=
  (bool_decide (name ∈ missing m), bool_decide (name ∈ tagsAlreadyIncluded m)).

Definition joinOver {A : Type} (f : A → Effect) (l : list A) : Effect :=
  foldr (λ a e, join (f a) e) Keep l.

(** The effect of a whole call of [evaluateMissingTags] on the object [v]. *)
Definition total (config : azurermResourceTagsRuleConfig) (name : string) (v : Value) : Effect :=
  if bool_decide (name ∈ Tags config) then
    if leafIn name v then Found else if lacking name v then Add else Keep
  else Keep.

(** The effect of one pass of the inner loop body. *)
Definition entryEffect (config : azurermResourceTagsRuleConfig) (name : string)
    (mapValue : list (string * Value)) (requiredTag : string)
    (entry : string * Value) : Effect :=
  match entry.2 with
  | ObjectVal _ => total config name entry.2
  | PrimitiveVal _ =>
      if String.eqb entry.1 requiredTag then
        if String.eqb requiredTag name then Found else Keep
      else if hasKey requiredTag mapValue then Keep
      else if String.eqb requiredTag name then Add else Keep
  | _ => Keep
  end.

(** ** Configurations, trees and resources of the test suite *)

Definition requireFooBar : azurermResourceTagsRuleConfig :=
  {| Tags := ["Foo"; "Bar"]; Exclude := [] |}.

Definition requireFour : azurermResourceTagsRuleConfig :=
  {| Tags := ["Application"; "CostCenter"; "Environment"; "ManagedBy"]; Exclude := [] |}.

Definition str (s : string) : Value := PrimitiveVal (PString s).

(** [tags = { common_tags = { more_tags = { Application = "PAL" },
    Environment = "NonProd", ManagedBy = "ws-nonprod-pal" } }] *)
Definition crossDepthTags : list (string * Value) :=
  [("common_tags", ObjectVal
      [("more_tags", ObjectVal [("Application", str "PAL")]);
       ("Environment", str "NonProd");
       ("ManagedBy", str "ws-nonprod-pal")])].

(** The same attribute as another run may see it. *)
Definition crossDepthTags' : list (string * Value) :=
  [("common_tags", ObjectVal
      [("ManagedBy", str "ws-nonprod-pal");
       ("more_tags", ObjectVal [("Application", str "PAL")]);
       ("Environment", str "NonProd")])].

(** [tags = { common_tags = { more_tags = { Application, CostCenter, Environment } } }] *)
Definition threeDeepTags : list (string * Value) :=
  [("common_tags", ObjectVal
      [("more_tags", ObjectVal
          [("Application", str "PAL"); ("CostCenter", str "PAL");
           ("Environment", str "NonProd")])])].

(** [tags = { foo = "bar", bar = "baz" }] *)
Definition lowercaseTags : list (string * Value) :=
  [("foo", str "bar"); ("bar", str "baz")].

(** [tags = { common_tags = {} }] *)
Definition leaflessTags : list (string * Value) :=
  [("common_tags", ObjectVal [])].

(** [tags = { Foo = {}, bar = "baz" }] *)
Definition shadowedTags : list (string * Value) :=
  [("Foo", ObjectVal []); ("bar", str "baz")].

Definition moduleRange (l1 c1 l2 c2 : nat) : Range :=
  {| Filename := "module.tf";
     Start := {| Line := l1; Column := c1 |};
     Stop := {| Line := l2; Column := c2 |} |}.

(** [resource "azurerm_resource_group" "rgp" {
      tags = { Foo = "a", Bar = local.undeclared } }]:
    without a scope the object expression still has a value, in which the
    attribute [Bar] is unknown; the runner's evaluation of the expression
    fails. *)
Definition unevaluatedResource : Block :=
  {| Labels := ("azurerm_resource_group", "rgp");
     tagsAttribute := Some {| ExprValue := ObjectVal [("Foo", str "a"); ("Bar", DynamicVal)];
                              EvaluateExpr := Err (OtherError "Reference to undeclared local value");
                              ExprRange := moduleRange 5 12 8 6 |};
     DefRange := moduleRange 2 3 2 42 |}.

Definition unevaluatedRunner : Runner :=
  {| DecodeRuleConfig := Ok requireFooBar;
     GetResourceContent := λ resourceType,
       if String.eqb resourceType "azurerm_resource_group"
       then Ok [unevaluatedResource] else Ok [] |}.

(** [resource "azurerm_resource_group" "az_rg_1"] without a [tags] attribute. *)
Definition untaggedResource : Block :=
  {| Labels := ("azurerm_resource_group", "az_rg_1");
     tagsAttribute := None;
     DefRange := moduleRange 2 3 2 46 |}.

(** A resource group with an evaluated [tags] attribute, and the runner
    of a module that declares the given blocks of that type. *)
Definition taggedResource (tags : list (string * Value)) (range : Range) : Block :=
  {| Labels := ("azurerm_resource_group", "rgp");
     tagsAttribute := Some {| ExprValue := ObjectVal tags;
                              EvaluateExpr := Ok (ObjectVal tags);
                              ExprRange := range |};
     DefRange := moduleRange 2 3 2 42 |}.

Definition moduleRunner (config : azurermResourceTagsRuleConfig) (blocks : list Block) : Runner :=
  {| DecodeRuleConfig := Ok config;
     GetResourceContent := λ resourceType,
       if String.eqb resourceType "azurerm_resource_group" then Ok blocks else Ok [] |}.

(** [tags = { Bar = "ba", Foo = "waa" }] *)
Definition correctTags : list (string * Value) :=
  [("Bar", str "ba"); ("Foo", str "waa")].

(** [tags = { common_tags = { Application = "PAL", more_tags = { CostCenter = "PAL" },
    Environment = "NonProd", ManagedBy = "ws-nonprod-pal" } }] *)
Definition threeLayerTags : list (string * Value) :=
  [("common_tags", ObjectVal
      [("Application", str "PAL");
       ("more_tags", ObjectVal [("CostCenter", str "PAL")]);
       ("Environment", str "NonProd");
       ("ManagedBy", str "ws-nonprod-pal")])].

(** ** The layers of a tree, and further inputs *)

(** Every map the resolver is called on for the object [v]: the entries
    of [v] itself and of every object nested in it, at any depth. *)
Fixpoint layers (v : Value) {struct v} : list (list (string * Value)) :=
  match v with
  | ObjectVal attrs => attrs :: flat_map (fun entry => layers entry.2) attrs
  | _ => []
  end.

(** Where the rule places the issue of a resource: at the [tags]
    attribute when there is one, else at the declaration. *)
Definition issueLocation (resource : Block) : Range :=
  match tagsAttribute resource with
  | Some attribute => ExprRange attribute
  | None => DefRange resource
  end.

(** The issue the rule emits for a resource without a [tags] attribute. *)
Definition untaggedIssue (config : azurermResourceTagsRuleConfig) (resource : Block) : Issue :=
  {| Message := issueMessage (Join (Tags config) ", "); IssueRange := DefRange resource |}.

(** A [range] that yields the keys of the set [s] in the order [names],
    and the keys of every other set in the order of [elements]. *)
Definition rangeKeysIn (s : gset string) (names : list string) (s' : gset string) : list string :=
  if decide (s' = s) then names else elements s'.


(** A module with one resource group, and a runner that cannot read the
    storage accounts. *)
Definition brokenRunner : Runner :=
  {| DecodeRuleConfig := Ok requireFooBar;
     GetResourceContent := λ resourceType,
       if String.eqb resourceType "azurerm_resource_group" then Ok [untaggedResource]
       else if String.eqb resourceType "azurerm_storage_account"
            then Err (OtherError "failed to read the module")
            else Ok [] |}.

(** [tags = { common_tags = { Foo = "a" }, more_tags = { bar = "b" } }] *)
Definition siblingTags : list (string * Value) :=
  [("common_tags", ObjectVal [("Foo", str "a")]);
   ("more_tags", ObjectVal [("bar", str "b")])].

(** The resource blocks [Check] walks: those of every type of the list
    that is not excluded and whose content the runner returns. *)
Definition checkedBlocks (runner : Runner) (config : azurermResourceTagsRuleConfig)
    (resourceTypes : list string) : list Block :=
  flat_map (fun resourceType =>
    if stringInSlice resourceType (Exclude config) then []
    else match GetResourceContent runner resourceType with
         | Ok blocks => blocks
         | Err _ => []
         end) resourceTypes.

(** A rule configuration whose tag list is empty: [tags = []]. *)
Definition requireNothing : azurermResourceTagsRuleConfig :=
  {| Tags := []; Exclude := [] |}.

(** * Properties *)

(** ** Induction over nested values *)

Lemma Value_nested_ind (P : Value → Prop) :
  P NilVal → P DynamicVal → (∀ p, P (PrimitiveVal p)) →
  (∀ attrs, Forall (λ entry, P entry.2) attrs → P (ObjectVal attrs)) →
  P SeqVal → P EmptySeqVal → (∀ elems, P (StringSetVal elems)) →
  (∀ elems, P (MapVal elems)) → ∀ v, P v.
Proof.
  intros Hnil Hdyn Hprim Hobj Hseq Hempty Hset Hmap.
  fix go 1. intros [| |p|attrs| | |elems|elems].
  - exact Hnil.
  - exact Hdyn.
  - apply Hprim.
  - apply Hobj. induction attrs as [|entry attrs IH]; constructor; [apply go | exact IH].
  - exact Hseq.
  - exact Hempty.
  - apply Hset.
  - apply Hmap.
Qed.

(** ** Reading [evaluateMissingTags] as the source writes it *)

(** The function is the two nested loops over [config.Tags] and over
    the entries of [mapValue], ... *)
Lemma evaluateMissingTags_loops config mapValue missing0 included0 :
  evaluateMissingTags config mapValue missing0 included0
  = forRange (Tags config) (λ requiredTag,
      forRange mapValue (visitEntry (evaluateObject config) mapValue requiredTag))
      {| missing := missing0; tagsAlreadyIncluded := included0 |}.
Proof. reflexivity. Qed.

(** ... and the call made for an object-typed entry is the function
    itself, on the entries of that object and on the same two maps. *)
Lemma evaluateObject_recursive_call config attrs m :
  evaluateObject config (ObjectVal attrs) m
  = evaluateMissingTags config attrs (missing m) (tagsAlreadyIncluded m).
Proof. by destruct m. Qed.

(** ** The algebra of effects *)

Lemma act_join e1 e2 s : act e2 (act e1 s) = act (join e1 e2) s.
Proof. destruct e1, e2, s as [[] []]; reflexivity. Qed.

Lemma joinOver_Found {A} (f : A → Effect) l :
  joinOver f l = Found ↔ ∃ a, a ∈ l ∧ f a = Found.
Proof.
  induction l as [|x l IH]; simpl.
  - split; [discriminate | intros (a & Ha & _); inversion Ha].
  - split.
    + intros H. destruct (f x) eqn:Hx.
      * destruct (joinOver f l) eqn:Hl; try discriminate.
        destruct IH as [IH _]. destruct (IH eq_refl) as (a & Ha & Hfa).
        exists a. split; [by right | done].
      * destruct (joinOver f l) eqn:Hl; try discriminate.
        destruct IH as [IH _]. destruct (IH eq_refl) as (a & Ha & Hfa).
        exists a. split; [by right | done].
      * exists x. split; [by left | done].
    + intros (a & Ha & Hfa). apply elem_of_cons in Ha as [->|Ha].
      * rewrite Hfa. reflexivity.
      * assert (joinOver f l = Found) as -> by (apply IH; eauto).
        by destruct (f x).
Qed.

Lemma joinOver_Keep {A} (f : A → Effect) l :
  joinOver f l = Keep ↔ ∀ a, a ∈ l → f a = Keep.
Proof.
  induction l as [|x l IH]; simpl.
  - split; [intros _ a Ha; inversion Ha | done].
  - split.
    + intros H a Ha. destruct (f x) eqn:Hx, (joinOver f l) eqn:Hl; try discriminate.
      apply elem_of_cons in Ha as [->|Ha]; [done | by apply IH].
    + intros H. rewrite (H x) by by left.
      assert (joinOver f l = Keep) as -> by (apply IH; intros; apply H; by right).
      reflexivity.
Qed.

Lemma forRange_view {A} name (f : A → TagMaps → TagMaps) (eff : A → Effect) l :
  (∀ a, a ∈ l → ∀ m, view name (f a m) = act (eff a) (view name m)) →
  ∀ m, view name (fold_left (λ m a, f a m) l m) = act (joinOver eff l) (view name m).
Proof.
  induction l as [|x l IH]; intros Hstep m; simpl; [done|].
  rewrite IH by (intros; apply Hstep; by right).
  rewrite Hstep by by left. apply act_join.
Qed.

Section effects.
Variable config : azurermResourceTagsRuleConfig.
Variable name : string.

Ltac view_solve :=
  unfold view, mapsCopy; simpl; f_equal;
  first [ apply bool_decide_ext; set_solver
        | apply bool_decide_eq_true_2; set_solver
        | apply bool_decide_eq_false_2; set_solver ].

Lemma visitEntry_view recur mapValue requiredTag entry m :
  view name (recur entry.2 m) = act (total config name entry.2) (view name m) →
  view name (visitEntry recur mapValue requiredTag entry m)
  = act (entryEffect config name mapValue requiredTag entry) (view name m).
Proof.
  intros Hrec. destruct entry as [tagName attributeValue].
  unfold visitEntry, entryEffect. simpl in *.
  destruct attributeValue as [| |p|attrs| | |elems|elems]; try reflexivity.
  - destruct (String.eqb_spec tagName requiredTag) as [->|Hne].
    + destruct (String.eqb_spec requiredTag name) as [->|Hne']; view_solve.
    + destruct (hasKey requiredTag mapValue); [reflexivity|]. simpl.
      destruct (String.eqb_spec requiredTag name) as [->|Hne'].
      * destruct (decide (name ∈ tagsAlreadyIncluded m)) as [Hin|Hin].
        -- rewrite (bool_decide_eq_true_2 _ Hin). simpl. unfold view.
           rewrite (bool_decide_eq_true_2 _ Hin). simpl. by rewrite orb_false_r.
        -- rewrite (bool_decide_eq_false_2 _ Hin). simpl. unfold view. simpl.
           rewrite (bool_decide_eq_false_2 _ Hin). simpl. rewrite orb_true_r.
           f_equal. apply bool_decide_eq_true_2. set_solver.
      * case_bool_decide; simpl; [reflexivity|]. view_solve.
  - rewrite <- Hrec. view_solve.
Qed.

Lemma existsb_elem_of {A} (f : A → bool) l :
  existsb f l = true ↔ ∃ x, x ∈ l ∧ f x = true.
Proof.
  rewrite existsb_exists. split; intros (x & Hx & Hf); exists x;
    (split; [by apply list_elem_of_In | done]).
Qed.

Lemma leafIn_object attrs :
  leafIn name (ObjectVal attrs) = true ↔
  ∃ entry, entry ∈ attrs ∧
    ((IsPrimitiveType entry.2 = true ∧ entry.1 = name) ∨
     (IsObjectType entry.2 = true ∧ leafIn name entry.2 = true)).
Proof.
  simpl. rewrite existsb_elem_of.
  split; intros ([k v] & He & H); exists (k, v); (split; [done|]); simpl in *.
  - destruct v; try discriminate; [left | right]; split; try done. by apply String.eqb_eq.
  - destruct H as [[Hp <-]|[Ho Hl]]; destruct v; try discriminate; [|done].
    apply String.eqb_refl.
Qed.

Lemma lacking_object attrs :
  lacking name (ObjectVal attrs) = true ↔
  layerLacks name attrs = true ∨ ∃ entry, entry ∈ attrs ∧ lacking name entry.2 = true.
Proof. simpl. rewrite orb_true_iff, existsb_elem_of. reflexivity. Qed.

Lemma lacking_is_object v : lacking name v = true → IsObjectType v = true.
Proof. destruct v; simpl; done. Qed.

Lemma total_not_Keep v :
  total config name v ≠ Keep ↔ name ∈ Tags config ∧ (leafIn name v = true ∨ lacking name v = true).
Proof.
  unfold total. case_bool_decide; [|naive_solver].
  destruct (leafIn name v), (lacking name v); naive_solver.
Qed.

Lemma total_Found v :
  total config name v = Found ↔ name ∈ Tags config ∧ leafIn name v = true.
Proof.
  unfold total. case_bool_decide; [|naive_solver].
  destruct (leafIn name v), (lacking name v); naive_solver.
Qed.

Lemma entryEffect_Found mapValue requiredTag entry :
  entryEffect config name mapValue requiredTag entry = Found ↔
  (IsObjectType entry.2 = true ∧ total config name entry.2 = Found) ∨
  (IsPrimitiveType entry.2 = true ∧ entry.1 = requiredTag ∧ requiredTag = name).
Proof.
  unfold entryEffect. destruct entry as [k v]; simpl.
  destruct v; simpl; try naive_solver.
  destruct (String.eqb_spec k requiredTag), (String.eqb_spec requiredTag name),
    (hasKey requiredTag mapValue); naive_solver.
Qed.

Lemma entryEffect_not_Keep mapValue requiredTag entry :
  entryEffect config name mapValue requiredTag entry ≠ Keep ↔
  (IsObjectType entry.2 = true ∧ total config name entry.2 ≠ Keep) ∨
  (IsPrimitiveType entry.2 = true ∧ requiredTag = name ∧
     (entry.1 = requiredTag ∨ hasKey requiredTag mapValue = false)).
Proof.
  unfold entryEffect. destruct entry as [k v]; simpl.
  destruct v; simpl; try naive_solver.
  destruct (String.eqb_spec k requiredTag), (String.eqb_spec requiredTag name),
    (hasKey requiredTag mapValue); naive_solver.
Qed.

Lemma joinOver_not_Keep {A} (f : A → Effect) l :
  joinOver f l ≠ Keep ↔ ∃ a, a ∈ l ∧ f a ≠ Keep.
Proof.
  rewrite joinOver_Keep. split.
  - intros H. induction l as [|x l IH].
    + exfalso. apply H. intros a Ha. inversion Ha.
    + destruct (f x) eqn:Hx.
      * destruct IH as (a & Ha & Hfa).
        { intros Hall. apply H. intros a Ha.
          apply elem_of_cons in Ha as [->|Ha]; [done | by apply Hall]. }
        exists a. split; [by right | done].
      * exists x. split; [by left | congruence].
      * exists x. split; [by left | congruence].
  - intros (a & Ha & Hfa) Hall. apply Hfa, Hall, Ha.
Qed.

Lemma loops_total attrs :
  joinOver (λ requiredTag, joinOver (entryEffect config name attrs requiredTag) attrs) (Tags config)
  = total config name (ObjectVal attrs).
Proof.
  set (lhs := joinOver _ _).
  assert (lhs = Found ↔ total config name (ObjectVal attrs) = Found) as HF.
  { unfold lhs. rewrite joinOver_Found, total_Found, leafIn_object. split.
    - intros (r & Hr & Hin). apply joinOver_Found in Hin as (e & He & Heff).
      apply entryEffect_Found in Heff as [[Ho Ht]|(Hp & Hk & Hn)].
      + apply total_Found in Ht as [? ?]. split; [done|]. exists e. naive_solver.
      + rewrite Hn in Hr, Hk. split; [done|]. exists e. naive_solver.
    - intros [Hreq (e & He & Hcase)]. exists name. split; [done|].
      apply joinOver_Found. exists e. split; [done|].
      apply entryEffect_Found. destruct Hcase as [[Hp Hk]|[Ho Hl]]; [naive_solver|].
      left. split; [done|]. by apply total_Found. }
  assert (lhs ≠ Keep ↔ total config name (ObjectVal attrs) ≠ Keep) as HK.
  { unfold lhs. rewrite joinOver_not_Keep, total_not_Keep, leafIn_object, lacking_object. split.
    - intros (r & Hr & Hin). apply joinOver_not_Keep in Hin as (e & He & Heff).
      apply entryEffect_not_Keep in Heff as [[Ho Ht]|(Hp & -> & Hcase)].
      + apply total_not_Keep in Ht as [? [Hl|Hl]]; (split; [done|]).
        * left. exists e. naive_solver.
        * right. right. exists e. naive_solver.
      + split; [done|]. destruct Hcase as [Hk|Hk].
        * left. exists e. naive_solver.
        * right. left. unfold layerLacks. rewrite Hk. simpl.
          apply existsb_elem_of. eauto.
    - intros [Hreq Hcase]. exists name. split; [done|].
      apply joinOver_not_Keep.
      destruct Hcase as [(e & He & [[Hp Hk]|[Ho Hl]])|[Hlayer|(e & He & Hl)]].
      + exists e. split; [done|]. apply entryEffect_not_Keep. naive_solver.
      + exists e. split; [done|]. apply entryEffect_not_Keep. left. split; [done|].
        apply total_not_Keep. naive_solver.
      + unfold layerLacks in Hlayer. apply andb_true_iff in Hlayer as [Hk Hp].
        apply negb_true_iff in Hk. apply existsb_elem_of in Hp as (e & He & Hp).
        exists e. split; [done|]. apply entryEffect_not_Keep. naive_solver.
      + exists e. split; [done|]. apply entryEffect_not_Keep. left.
        split; [by apply lacking_is_object|]. apply total_not_Keep. naive_solver. }
  clearbody lhs.
  destruct lhs, (total config name (ObjectVal attrs)); try reflexivity; exfalso;
    first [ by apply (proj1 HK) | by apply (proj2 HK)
          | discriminate (proj1 HF eq_refl) | discriminate (proj2 HF eq_refl) ].
Qed.

Lemma evaluateObject_view v :
  ∀ m, view name (evaluateObject config v m) = act (total config name v) (view name m).
Proof.
  induction v as [| |p|attrs IH| | |elems|elems] using Value_nested_ind; intros m;
    try (unfold total; simpl; by case_bool_decide).
  rewrite <- loops_total. simpl.
  apply (forRange_view name
    (λ requiredTag m, fold_left (λ m entry,
       visitEntry (evaluateObject config) attrs requiredTag entry m) attrs m)).
  intros requiredTag _ m'.
  apply (forRange_view name (visitEntry (evaluateObject config) attrs requiredTag)).
  intros entry He m''. apply visitEntry_view.
  rewrite Forall_forall in IH. by apply IH.
Qed.
End effects.

(** ** The resolver, name by name *)

Lemma evaluateMissingTags_view config name mapValue missing0 included0 :
  view name (evaluateMissingTags config mapValue missing0 included0)
  = act (total config name (ObjectVal mapValue))
        (bool_decide (name ∈ missing0), bool_decide (name ∈ included0)).
Proof. unfold evaluateMissingTags. by rewrite evaluateObject_view. Qed.

(** From the two empty maps of [emitIssue]: a name ends up in [missing]
    exactly when it is required, no leaf carries it, and some layer with a
    primitive entry has no key of that name. *)
Lemma missing_iff config name mapValue :
  name ∈ missing (evaluateMissingTags config mapValue ∅ ∅) ↔
  name ∈ Tags config ∧ leafIn name (ObjectVal mapValue) = false
    ∧ lacking name (ObjectVal mapValue) = true.
Proof.
  pose proof (evaluateMissingTags_view config name mapValue ∅ ∅) as Hview.
  rewrite !bool_decide_eq_false_2 in Hview by set_solver.
  apply (f_equal fst) in Hview. unfold view, fst at 1 in Hview.
  etrans; [symmetry; apply bool_decide_eq_true|]. rewrite Hview. clear Hview.
  unfold total. case_bool_decide as Hreq; [|naive_solver].
  destruct (leafIn name (ObjectVal mapValue)), (lacking name (ObjectVal mapValue));
    naive_solver.
Qed.

(** The half of the design document's invariant that the code keeps: a
    name carried by a leaf, at any depth, is never reported. *)
Lemma leaf_never_missing config name mapValue :
  leafIn name (ObjectVal mapValue) = true →
  name ∉ missing (evaluateMissingTags config mapValue ∅ ∅).
Proof. rewrite missing_iff. intros -> (_ & ? & _). done. Qed.

(** The design document's resolver reports every name the code reports:
    the code may leave a missing tag out, it never adds one. *)
Lemma missing_subset_Resolve_spec config mapValue :
  missing (evaluateMissingTags config mapValue ∅ ∅)
    ⊆ Resolve_spec (Tags config) (ObjectVal mapValue).
Proof.
  intros name Hin. apply missing_iff in Hin as (Hreq & Hleaf & _).
  unfold Resolve_spec. apply elem_of_list_to_set, list_elem_of_filter. done.
Qed.

Lemma missing_added_required config mapValue :
  missing (evaluateMissingTags config mapValue ∅ ∅) ⊆ list_to_set (Tags config).
Proof.
  intros name Hin. apply missing_iff in Hin as (Hreq & _).
  by apply elem_of_list_to_set.
Qed.

Lemma evaluateMissingTags_ext config mapValue mapValue' missing0 included0 :
  (∀ name, leafIn name (ObjectVal mapValue) = leafIn name (ObjectVal mapValue')) →
  (∀ name, lacking name (ObjectVal mapValue) = lacking name (ObjectVal mapValue')) →
  evaluateMissingTags config mapValue missing0 included0
  = evaluateMissingTags config mapValue' missing0 included0.
Proof.
  intros Hleaf Hlack.
  assert (∀ name, view name (evaluateMissingTags config mapValue missing0 included0)
                = view name (evaluateMissingTags config mapValue' missing0 included0)) as Hview.
  { intros name. rewrite !evaluateMissingTags_view. unfold total.
    by rewrite Hleaf, Hlack. }
  destruct (evaluateMissingTags config mapValue missing0 included0) as [M I].
  destruct (evaluateMissingTags config mapValue' missing0 included0) as [M' I'].
  f_equal; apply set_eq; intros name; specialize (Hview name);
    unfold view in Hview; simpl in Hview; injection Hview as Hm Hi.
  - etrans; [symmetry; apply bool_decide_eq_true|]. rewrite Hm. apply bool_decide_eq_true.
  - etrans; [symmetry; apply bool_decide_eq_true|]. rewrite Hi. apply bool_decide_eq_true.
Qed.

(** ** Reordering the entries of groupings *)

Lemma reorderedEntries_invariants attrs attrs' :
  reorderedEntries attrs attrs' →
  ∀ name,
    leafIn name (ObjectVal attrs) = leafIn name (ObjectVal attrs')
    ∧ hasKey name attrs = hasKey name attrs'
    ∧ existsb (λ entry, IsPrimitiveType entry.2) attrs
      = existsb (λ entry, IsPrimitiveType entry.2) attrs'
    ∧ existsb (λ entry, lacking name entry.2) attrs
      = existsb (λ entry, lacking name entry.2) attrs'.
Proof.
  revert attrs attrs'.
  apply (reorderedEntries_mut
    (λ v v', ∀ name,
       leafIn name v = leafIn name v' ∧ lacking name v = lacking name v'
       ∧ IsPrimitiveType v = IsPrimitiveType v' ∧ IsObjectType v = IsObjectType v')
    (λ attrs attrs', ∀ name,
       leafIn name (ObjectVal attrs) = leafIn name (ObjectVal attrs')
       ∧ hasKey name attrs = hasKey name attrs'
       ∧ existsb (λ entry, IsPrimitiveType entry.2) attrs
         = existsb (λ entry, IsPrimitiveType entry.2) attrs'
       ∧ existsb (λ entry, lacking name entry.2) attrs
         = existsb (λ entry, lacking name entry.2) attrs')).
  - done.
  - intros attrs attrs' _ IH name. destruct (IH name) as (Hleaf & Hkey & Hprim & Hlack).
    repeat split; [done| |done..].
    unfold lacking; fold lacking. unfold layerLacks. by rewrite Hkey, Hprim, Hlack.
  - done.
  - intros key v v' attrs attrs' _ IHv _ IH name.
    destruct (IHv name) as (Hleaf & Hlack & Hprim & Hobj).
    destruct (IH name) as (Hleafs & Hkey & Hprims & Hlacks).
    unfold hasKey in *. simpl in Hleafs |- *.
    rewrite Hleafs, Hkey, Hprims, Hlacks, Hprim, Hlack.
    repeat split.
    f_equal. destruct v, v'; simpl in *; done.
  - intros [k1 v1] [k2 v2] attrs name. unfold hasKey. simpl.
    repeat split; rewrite !orb_assoc; f_equal; apply orb_comm.
  - intros attrs1 attrs2 attrs3 _ IH12 _ IH23 name.
    destruct (IH12 name) as (? & ? & ? & ?), (IH23 name) as (? & ? & ? & ?).
    repeat split; congruence.
Qed.

Lemma evaluateMissingTags_reordered config attrs attrs' missing0 included0 :
  reorderedEntries attrs attrs' →
  evaluateMissingTags config attrs missing0 included0
  = evaluateMissingTags config attrs' missing0 included0.
Proof.
  intros Hre. apply evaluateMissingTags_ext; intros name;
    destruct (reorderedEntries_invariants _ _ Hre name) as (Hleaf & Hkey & Hprim & Hlack);
    [done|].
  unfold lacking; fold lacking. unfold layerLacks. by rewrite Hkey, Hprim, Hlack.
Qed.

(** ** Any visiting order gives the result of [evaluateMissingTags] *)

Lemma join_comm e1 e2 : join e1 e2 = join e2 e1.
Proof. by destruct e1, e2. Qed.

Lemma join_assoc e1 e2 e3 : join e1 (join e2 e3) = join (join e1 e2) e3.
Proof. by destruct e1, e2, e3. Qed.

Lemma joinOver_perm {A} (f : A → Effect) l l' :
  l ≡ₚ l' → joinOver f l = joinOver f l'.
Proof.
  induction 1 as [|x l l' _ IH|x y l|l1 l2 l3 _ IH12 _ IH23]; simpl.
  - done.
  - by rewrite IH.
  - rewrite !join_assoc. f_equal. apply join_comm.
  - congruence.
Qed.

Lemma total_not_object config name v : IsObjectType v = false → total config name v = Keep.
Proof. unfold total. destruct v; try discriminate; intros _; by case_bool_decide. Qed.

Lemma evalAny_view config mapValue m m' :
  evalAny config mapValue m m' →
  ∀ name, view name m' = act (total config name (ObjectVal mapValue)) (view name m).
Proof.
  revert mapValue m m'.
  apply (evalAny_mut config
    (λ mapValue m m', ∀ name,
       view name m' = act (total config name (ObjectVal mapValue)) (view name m))
    (λ mapValue tags m m', ∀ name,
       view name m' = act (joinOver (λ requiredTag,
         joinOver (entryEffect config name mapValue requiredTag) mapValue) tags) (view name m))
    (λ mapValue requiredTag entries m m', ∀ name,
       view name m' = act (joinOver (entryEffect config name mapValue requiredTag) entries)
                          (view name m))).
  - intros mapValue m m' _ IH name. rewrite <- loops_total. apply IH.
  - done.
  - intros mapValue requiredTag rest order m m' m'' Hperm _ IHin _ IHout name.
    rewrite IHout, IHin, act_join. simpl. by rewrite (joinOver_perm _ _ _ Hperm).
  - done.
  - intros mapValue requiredTag tagName attrs rest m nested m' _ IHnested _ IHrest name.
    rewrite IHrest, (visitEntry_view config name), act_join; [done|]. apply IHnested.
  - intros mapValue requiredTag tagName v rest m m' Hv _ IHrest name.
    rewrite IHrest, (visitEntry_view config name), act_join; [done|].
    simpl. by rewrite total_not_object.
Qed.

Lemma TagMaps_view_eq m1 m2 : (∀ name, view name m1 = view name m2) → m1 = m2.
Proof.
  intros Hview. destruct m1 as [M1 I1], m2 as [M2 I2].
  f_equal; apply set_eq; intros name; specialize (Hview name);
    unfold view in Hview; simpl in Hview; injection Hview as Hm Hi.
  - etrans; [symmetry; apply bool_decide_eq_true|]. rewrite Hm. apply bool_decide_eq_true.
  - etrans; [symmetry; apply bool_decide_eq_true|]. rewrite Hi. apply bool_decide_eq_true.
Qed.

(** Whatever orders the loops take, the two maps end as
    [evaluateMissingTags] leaves them. *)
Lemma evalAny_agrees config mapValue m m' :
  evalAny config mapValue m m' →
  m' = evaluateMissingTags config mapValue (missing m) (tagsAlreadyIncluded m).
Proof.
  intros Hrun. apply TagMaps_view_eq. intros name.
  rewrite (evalAny_view _ _ _ _ Hrun), evaluateMissingTags_view. done.
Qed.

Lemma innerAny_listed config mapValue requiredTag entries :
  Forall (λ entry, ∀ attrs m, entry.2 = ObjectVal attrs →
            evalAny config attrs m (evaluateObject config entry.2 m)) entries →
  ∀ m, innerAny config mapValue requiredTag entries m
         (forRange entries (visitEntry (evaluateObject config) mapValue requiredTag) m).
Proof.
  induction 1 as [|[tagName v] entries Hv _ IH]; intros m; [constructor|].
  destruct (IsObjectType v) eqn:Hobj.
  - destruct v as [| | |attrs| | | |]; try discriminate.
    eapply innerAny_object; [by apply (Hv attrs m)|]. apply IH.
  - apply innerAny_other; [done|].
    assert (visitEntry (λ _ m, m) mapValue requiredTag (tagName, v) m
            = visitEntry (evaluateObject config) mapValue requiredTag (tagName, v) m) as ->
      by (destruct v; try discriminate; reflexivity).
    apply IH.
Qed.

Lemma outerAny_listed config mapValue tags :
  (∀ requiredTag m, innerAny config mapValue requiredTag mapValue m
     (forRange mapValue (visitEntry (evaluateObject config) mapValue requiredTag) m)) →
  ∀ m, outerAny config mapValue tags m
         (forRange tags (λ requiredTag,
            forRange mapValue (visitEntry (evaluateObject config) mapValue requiredTag)) m).
Proof.
  intros Hinner. induction tags as [|requiredTag rest IH]; intros m; [constructor|].
  eapply outerAny_tag; [reflexivity | apply Hinner | apply IH].
Qed.

(** And the listed order is one of the orders: a run always exists. *)
Lemma evalAny_listed config mapValue m :
  evalAny config mapValue m
    (evaluateMissingTags config mapValue (missing m) (tagsAlreadyIncluded m)).
Proof.
  assert (∀ v attrs m, v = ObjectVal attrs →
            evalAny config attrs m (evaluateObject config v m)) as Hall.
  { induction v as [| |p|attrs' IH| | |elems|elems] using Value_nested_ind;
      intros attrs m' Heq;
      try discriminate.
    injection Heq as ->. constructor. apply outerAny_listed.
    intros requiredTag m''. by apply innerAny_listed. }
  unfold evaluateMissingTags. destruct m as [M I]. by apply (Hall (ObjectVal mapValue)).
Qed.

(** ** Helper facts about the host model *)

Lemma reorderedEntries_refl attrs : reorderedEntries attrs attrs.
Proof.
  induction attrs as [|[key v] attrs IH]; [constructor|].
  apply reordered_skip; [apply reordered_same | exact IH].
Qed.

Lemma size_pos_iff (M : gset string) : 0 < size M ↔ M ≠ ∅.
Proof.
  split.
  - intros Hsize ->. rewrite size_empty in Hsize. lia.
  - intros Hne. destruct (decide (size M = 0)) as [Hz|Hz]; [|lia].
    apply size_empty_iff in Hz. exfalso. apply Hne. by apply leibniz_equiv.
Qed.

(** [Join] is the join of the standard library. *)
Lemma Join_concat elems sep : Join elems sep = String.concat sep elems.
Proof.
  induction elems as [|s [|s' rest] IH]; [done..|].
  change (Join (s :: s' :: rest) sep) with (s +:+ sep +:+ Join (s' :: rest) sep).
  by rewrite IH.
Qed.

Lemma emitIssue_map rt tags config location mapValue :
  IsNull tags = false → AsValueMap tags = Some mapValue →
  emitIssue rt tags config location =
    let missing := missing (evaluateMissingTags config mapValue ∅ ∅) in
    if bool_decide (0 < size missing)
    then EmitIssue (issueMessage (Join (rangeKeys rt missing) ", ")) location
    else ret tt.
Proof. intros Hnull Hmap. unfold emitIssue. by rewrite Hnull, Hmap. Qed.

Lemma evaluateMissingTags_no_entries config :
  missing (evaluateMissingTags config [] ∅ ∅) = ∅.
Proof. apply set_eq. intros name. rewrite missing_iff. simpl. set_solver. Qed.

(** A value that converts to a map without entries yields no issue. *)
Lemma emitIssue_no_entries rt tags config location issues :
  IsNull tags = false → AsValueMap tags = Some [] →
  emitIssue rt tags config location issues = Done tt issues.
Proof.
  intros Hnull Hmap. rewrite (emitIssue_map rt _ _ _ []) by done. simpl.
  rewrite evaluateMissingTags_no_entries.
  by rewrite bool_decide_eq_false_2 by (rewrite size_empty; lia).
Qed.

(** An evaluation error never reaches the caller: the loop body runs
    [emitIssue] on whatever [value] held before, and [err] stays nil. *)
Lemma checkBlock_ignores_evaluation_error rt config resource attribute e :
  tagsAttribute resource = Some attribute →
  EvaluateExpr attribute = Err e →
  checkBlock rt config None resource
  = (emitIssue rt (ExprValue attribute) config (ExprRange attribute) ;; ret None).
Proof. intros Hattr Heval. unfold checkBlock. by rewrite Hattr, Heval. Qed.

(** ** The claims of the design document *)

(** C6 — the cross-depth scenario of the test suite: with
    [Application], [CostCenter], [Environment] and [ManagedBy] required
    and the tree [{common_tags: {more_tags: {Application}, Environment,
    ManagedBy}}], in whatever order the groupings list their entries, the
    resolver returns exactly [{CostCenter}], and the one issue names it. *)
Theorem cross_depth_scenario rt tags' location issues :
  reorderedEntries crossDepthTags tags' →
  missing (evaluateMissingTags requireFour tags' ∅ ∅) = {[ "CostCenter" ]}
  ∧ emitIssue rt (ObjectVal tags') requireFour location issues
    = Done tt (issues ++
        [{| Message := "The resource is missing the following tags: CostCenter.";
            IssueRange := location |}]).
Proof.
  intros Hre.
  assert (missing (evaluateMissingTags requireFour tags' ∅ ∅) = {[ "CostCenter" ]}) as Hmissing.
  { rewrite <- (evaluateMissingTags_reordered _ _ _ _ _ Hre). by vm_compute. }
  split; [done|].
  rewrite (emitIssue_map rt _ _ _ tags') by done. simpl. rewrite Hmissing.
  rewrite bool_decide_eq_true_2 by (rewrite size_singleton; lia).
  pose proof (rangeKeys_perm rt {[ "CostCenter" ]}) as Hperm.
  rewrite elements_singleton in Hperm. apply Permutation_singleton_r in Hperm.
  by rewrite Hperm.
Qed.

Lemma cross_depth_scenario_witness :
  reorderedEntries crossDepthTags crossDepthTags'
  ∧ missing (evaluateMissingTags requireFour crossDepthTags' ∅ ∅) = {[ "CostCenter" ]}
  ∧ emitIssue sortedRuntime (ObjectVal crossDepthTags') requireFour (moduleRange 5 14 13 6) []
    = Done tt [{| Message := "The resource is missing the following tags: CostCenter.";
                  IssueRange := moduleRange 5 14 13 6 |}].
Proof.
  assert (reorderedEntries crossDepthTags crossDepthTags') as Hre.
  { apply reordered_skip; [|apply reordered_nil]. apply reordered_object.
    eapply reordered_trans.
    - apply reordered_skip; [apply reordered_same | apply reordered_swap].
    - apply reordered_swap. }
  split; [exact Hre|].
  exact (cross_depth_scenario sortedRuntime crossDepthTags' (moduleRange 5 14 13 6) [] Hre).
Defined.

(** C7 — order-independence: listing the entries of any grouping, at any
    depth, in another order leaves the resulting set of missing tags
    unchanged; and so does any choice of visiting order made by the loops
    while they run. *)
Theorem evaluateMissingTags_order_independent config attrs attrs' missing0 included0 :
  reorderedEntries attrs attrs' →
  missing (evaluateMissingTags config attrs' missing0 included0)
  = missing (evaluateMissingTags config attrs missing0 included0)
  ∧ ∀ m', evalAny config attrs'
            {| missing := missing0; tagsAlreadyIncluded := included0 |} m' →
          missing m' = missing (evaluateMissingTags config attrs missing0 included0).
Proof.
  intros Hre. rewrite (evaluateMissingTags_reordered _ _ _ missing0 included0 Hre).
  split; [done|]. intros m' Hrun. by rewrite (evalAny_agrees _ _ _ _ Hrun).
Qed.

Lemma evaluateMissingTags_order_independent_witness :
  reorderedEntries crossDepthTags crossDepthTags'
  ∧ missing (evaluateMissingTags requireFour crossDepthTags' ∅ ∅)
    = missing (evaluateMissingTags requireFour crossDepthTags ∅ ∅).
Proof.
  assert (reorderedEntries crossDepthTags crossDepthTags') as Hre.
  { apply reordered_skip; [|apply reordered_nil]. apply reordered_object.
    eapply reordered_trans.
    - apply reordered_skip; [apply reordered_same | apply reordered_swap].
    - apply reordered_swap. }
  split; [exact Hre|].
  exact (proj1 (evaluateMissingTags_order_independent requireFour _ _ ∅ ∅ Hre)).
Defined.

(** C10 — only required names are ever reported: whatever keys the tree
    holds, and whatever shape its root has, the set of missing tags is a
    subset of the configured tags; a call of the resolver adds nothing but
    required names to the [missing] it is given. *)
Theorem missing_subset_required config mapValue missing0 included0 :
  missing (evaluateMissingTags config mapValue ∅ ∅) ⊆ list_to_set (Tags config)
  ∧ missing (evaluateMissingTags config mapValue missing0 included0)
      ⊆ missing0 ∪ list_to_set (Tags config)
  ∧ from_option (λ M, M ⊆ list_to_set (Tags config)) True
      (MissingTagSet config (ObjectVal mapValue))
  ∧ from_option (λ M, M ⊆ list_to_set (Tags config)) True
      (MissingTagSet config NilVal).
Proof.
  split; [|split; [|split]].
  - apply missing_added_required.
  - intros name Hin. destruct (decide (name ∈ Tags config)) as [Hreq|Hreq];
      [set_solver|].
    pose proof (evaluateMissingTags_view config name mapValue missing0 included0) as Hview.
    unfold total in Hview. rewrite (bool_decide_eq_false_2 _ Hreq) in Hview.
    injection Hview as Hm _. rewrite (bool_decide_eq_true_2 _ Hin) in Hm.
    symmetry in Hm. apply bool_decide_eq_true in Hm. set_solver.
  - simpl. apply missing_added_required.
  - simpl. done.
Qed.

(** C8 — a resource without a [tags] attribute: every configured tag is
    reported, in the configured order, by one issue placed at the
    declaration of the resource; so for the untagged resource group of the
    test suite, with [Foo] and [Bar] required. *)
Theorem absent_tags_report_all_at_declaration rt config labels defRange err issues :
  checkBlock rt config err
    {| Labels := labels; tagsAttribute := None; DefRange := defRange |} issues
  = Done err (issues ++
      [{| Message := "The resource is missing the following tags: "
                     +:+ String.concat ", " (Tags config) +:+ ".";
          IssueRange := defRange |}])
  ∧ Check rt ["azurerm_resource_group"] (moduleRunner requireFooBar [untaggedResource]) []
    = Done None [{| Message := "The resource is missing the following tags: Foo, Bar.";
                    IssueRange := moduleRange 2 3 2 46 |}].
Proof.
  split; [|reflexivity].
  unfold checkBlock, emitIssue. cbn [tagsAttribute DefRange IsNull].
  unfold issueMessage. by rewrite Join_concat.
Qed.

(** C9, as stated — with an empty list of required tags, a resource
    without a [tags] attribute has nothing missing, and an issue is emitted
    for it all the same. *)
Lemma empty_tag_list_still_reported :
  MissingTagSet requireNothing NilVal = Some ∅
  ∧ emitIssue sortedRuntime NilVal requireNothing (moduleRange 2 3 2 46) [] ≠ Done tt []
  ∧ emitIssue sortedRuntime NilVal requireNothing (moduleRange 2 3 2 46) []
    = Done tt [{| Message := "The resource is missing the following tags: .";
                  IssueRange := moduleRange 2 3 2 46 |}].
Proof. split; [by vm_compute|]. split; [discriminate | reflexivity]. Qed.

(** C9, as the code has it — one issue per offending resource.  For a
    [tags] value that is not null: when the set of missing tags is not
    empty, exactly one issue is appended, whose message is the fixed
    sentence around the missing names, each once, joined by a comma and a
    space; when the set is empty, none is.  For a null value, and so for a
    resource without the attribute: exactly one issue is appended, which
    names the configured tags in their order, whether or not there are
    any. *)
Theorem emitIssue_single_issue rt config tags location issues M :
  MissingTagSet config tags = Some M →
  (IsNull tags = false →
     (M ≠ ∅ →
        ∃ names, names ≡ₚ elements M
          ∧ emitIssue rt tags config location issues
            = Done tt (issues ++
                [{| Message := "The resource is missing the following tags: "
                               +:+ String.concat ", " names +:+ ".";
                    IssueRange := location |}]))
     ∧ (M = ∅ → emitIssue rt tags config location issues = Done tt issues))
  ∧ (IsNull tags = true →
       M = list_to_set (Tags config)
       ∧ emitIssue rt tags config location issues
         = Done tt (issues ++
             [{| Message := "The resource is missing the following tags: "
                            +:+ String.concat ", " (Tags config) +:+ ".";
                 IssueRange := location |}])).
Proof.
  intros HM. unfold MissingTagSet in HM.
  destruct (IsNull tags) eqn:Hnull.
  - split; [discriminate|]. intros _. injection HM as <-. split; [done|].
    unfold emitIssue. rewrite Hnull. unfold issueMessage. by rewrite Join_concat.
  - split; [|discriminate]. intros _.
    destruct (AsValueMap tags) as [mapValue|] eqn:Hmap; [|discriminate].
    simpl in HM. injection HM as <-.
    rewrite (emitIssue_map rt _ _ _ mapValue) by done. cbv zeta.
    set (M := missing (evaluateMissingTags config mapValue ∅ ∅)).
    split.
    + intros Hne. rewrite bool_decide_eq_true_2 by by apply size_pos_iff.
      exists (rangeKeys rt M). split; [apply rangeKeys_perm|].
      unfold issueMessage. by rewrite Join_concat.
    + intros Hempty. rewrite bool_decide_eq_false_2; [done|].
      rewrite Hempty, size_empty. lia.
Qed.

Lemma emitIssue_single_issue_witness :
  (* the attribute is present: three levels deep, [ManagedBy] is nowhere *)
  (MissingTagSet requireFour (ObjectVal threeDeepTags) = Some {[ "ManagedBy" ]}
   ∧ emitIssue sortedRuntime (ObjectVal threeDeepTags) requireFour (moduleRange 5 16 13 8) []
     = Done tt [{| Message := "The resource is missing the following tags: ManagedBy.";
                   IssueRange := moduleRange 5 16 13 8 |}])
  (* the attribute is absent and the configuration names two tags *)
  ∧ (MissingTagSet requireFooBar NilVal = Some {[ "Foo"; "Bar" ]}
     ∧ emitIssue sortedRuntime NilVal requireFooBar (moduleRange 2 3 2 46) []
       = Done tt [{| Message := "The resource is missing the following tags: Foo, Bar.";
                     IssueRange := moduleRange 2 3 2 46 |}]).
Proof.
  assert (MissingTagSet requireFour (ObjectVal threeDeepTags) = Some {[ "ManagedBy" ]})
    as HM by (vm_compute; reflexivity).
  assert (MissingTagSet requireFooBar NilVal = Some {[ "Foo"; "Bar" ]})
    as HM' by (vm_compute; reflexivity).
  split; (split; [assumption|]).
  - destruct (emitIssue_single_issue sortedRuntime requireFour (ObjectVal threeDeepTags)
                (moduleRange 5 16 13 8) [] {[ "ManagedBy" ]} HM) as [Hpresent _].
    destruct (Hpresent eq_refl) as [Hone _].
    destruct Hone as (names & Hperm & Hissue); [by vm_compute|].
    rewrite elements_singleton in Hperm. apply Permutation_singleton_r in Hperm.
    rewrite Hperm in Hissue. exact Hissue.
  - destruct (emitIssue_single_issue sortedRuntime requireFooBar NilVal
                (moduleRange 2 3 2 46) [] {[ "Foo"; "Bar" ]} HM') as [_ Habsent].
    destruct (Habsent eq_refl) as [_ Hissue]. exact Hissue.
Defined.

(** C3 — an empty grouping.  The loops of the resolver have no entry to
    visit, so nothing is put into [missing]: for [tags = {}] the result is
    the empty set and no issue is emitted, whatever the configuration
    requires. *)
Theorem empty_grouping_reports_nothing rt config location issues :
  missing (evaluateMissingTags config [] ∅ ∅) = ∅
  ∧ emitIssue rt (ObjectVal []) config location issues = Done tt issues.
Proof.
  split; [apply evaluateMissingTags_no_entries | by apply emitIssue_no_entries].
Qed.

(** C1 — a tree without any leaf.  For [tags = { common_tags = {} }] and
    the required tags [Foo] and [Bar], no leaf carries either name (the
    resolver of the design document reports both), yet the code reports
    neither: a name is marked missing only while a primitive entry is
    being visited. *)
Theorem leafless_grouping_reports_nothing :
  leafIn "Foo" (ObjectVal leaflessTags) = false
  ∧ leafIn "Bar" (ObjectVal leaflessTags) = false
  ∧ Resolve_spec (Tags requireFooBar) (ObjectVal leaflessTags) = {[ "Foo"; "Bar" ]}
  ∧ missing (evaluateMissingTags requireFooBar leaflessTags ∅ ∅) = ∅
  ∧ emitIssue sortedRuntime (ObjectVal leaflessTags) requireFooBar (moduleRange 5 12 7 6) []
    = Done tt [].
Proof. repeat split; by vm_compute. Qed.

(** C5 — a required name that is only the key of a grouping.  For
    [tags = { Foo = {}, bar = "baz" }], in either order, [Foo] is the key
    of a grouping and of no leaf, and it is not reported: the look-up
    [mapValue[requiredTag]] finds the grouping's key at this layer.  [Bar],
    which is no key at all, is reported. *)
Theorem grouping_key_hides_missing_tag :
  groupingKeyIn "Foo" (ObjectVal shadowedTags) = true
  ∧ leafIn "Foo" (ObjectVal shadowedTags) = false
  ∧ missing (evaluateMissingTags requireFooBar shadowedTags ∅ ∅) = {[ "Bar" ]}
  ∧ missing (evaluateMissingTags requireFooBar (reverse shadowedTags) ∅ ∅) = {[ "Bar" ]}
  ∧ emitIssue sortedRuntime (ObjectVal shadowedTags) requireFooBar (moduleRange 5 12 8 6) []
    = Done tt [{| Message := "The resource is missing the following tags: Bar.";
                  IssueRange := moduleRange 5 12 8 6 |}].
Proof. repeat split; by vm_compute. Qed.

(** C2 — a [tags] attribute that cannot be evaluated.  The runner's
    evaluation of [tags = { Foo = "a", Bar = local.undeclared }] fails,
    and [Check] still returns nil: the error is dropped, [emitIssue] runs
    on the value the expression has without a scope, finds the keys [Foo]
    and [Bar] in it, and the resource passes without an issue and without
    an error. *)
Theorem Check_swallows_evaluation_error rt :
  EvaluateExpr <$> tagsAttribute unevaluatedResource
    = Some (Err (OtherError "Reference to undeclared local value"))
  ∧ Check rt ["azurerm_resource_group"] unevaluatedRunner [] = Done None [].
Proof.
  split; [reflexivity|].
  assert (checkBlock rt requireFooBar None unevaluatedResource [] = Done None []) as Hblock.
  { rewrite (checkBlock_ignores_evaluation_error rt requireFooBar unevaluatedResource _
               (OtherError "Reference to undeclared local value")) by reflexivity.
    unfold mbind, M_bind. cbn [ExprValue ExprRange].
    rewrite (emitIssue_map rt _ _ _ [("Foo", str "a"); ("Bar", DynamicVal)]) by done.
    cbv zeta.
    assert (missing (evaluateMissingTags requireFooBar
                       [("Foo", str "a"); ("Bar", DynamicVal)] ∅ ∅) = ∅) as ->
      by (vm_compute; reflexivity).
    by rewrite bool_decide_eq_false_2 by (rewrite size_empty; lia). }
  unfold Check, unevaluatedRunner.
  cbn [DecodeRuleConfig checkResourceTypes stringInSlice Exclude requireFooBar
       GetResourceContent].
  rewrite String.eqb_refl. cbn [checkBlocks]. unfold mbind, M_bind.
  by rewrite Hblock.
Qed.

(** C4 — a primitive value at the root, as stated: [emitIssue] would
    have to complete on [tags = "production"].  It does not. *)
Lemma root_leaf_does_not_complete :
  ¬ ∃ issues',
      emitIssue sortedRuntime (str "production") requireFooBar (moduleRange 5 12 5 24) []
      = Done tt issues'.
Proof. intros [issues' Hdone]. vm_compute in Hdone. discriminate. Qed.

(** C4, as the code has it — a primitive value at the root is not
    treated as an empty grouping: the rule has no branch for it, its
    conversion to a map panics, resolution does not complete and no issue
    is recorded. *)
Theorem emitIssue_root_leaf_panics rt p config location issues :
  emitIssue rt (PrimitiveVal p) config location issues = Panic.
Proof. reflexivity. Qed.

(** ** The cases of the test suite *)

Section test_suite.
Variable rt : GoRuntime.

Example no_tags_attribute :
  Check rt ["azurerm_resource_group"] (moduleRunner requireFooBar [untaggedResource]) []
  = Done None [{| Message := "The resource is missing the following tags: Foo, Bar.";
                  IssueRange := moduleRange 2 3 2 46 |}].
Proof. reflexivity. Qed.

Example lowercase_tags_do_not_count :
  missing (evaluateMissingTags requireFooBar lowercaseTags ∅ ∅) = {[ "Foo"; "Bar" ]}
  ∧ ∃ wanted, wanted ≡ₚ ["Foo"; "Bar"]
      ∧ Check rt ["azurerm_resource_group"]
          (moduleRunner requireFooBar [taggedResource lowercaseTags (moduleRange 5 12 8 6)]) []
        = Done None [{| Message := issueMessage (Join wanted ", ");
                        IssueRange := moduleRange 5 12 8 6 |}].
Proof.
  assert (missing (evaluateMissingTags requireFooBar lowercaseTags ∅ ∅) = {[ "Foo"; "Bar" ]})
    as Hmissing by by vm_compute.
  split; [done|]. exists (rangeKeys rt {[ "Foo"; "Bar" ]}). split.
  - rewrite (rangeKeys_perm rt). by vm_compute.
  - cbn -[emitIssue]. unfold mbind, M_bind.
    rewrite (emitIssue_map rt _ _ _ lowercaseTags) by done. cbv zeta.
    rewrite Hmissing.
    assert (bool_decide (0 < size ({[ "Foo"; "Bar" ]} : gset string)) = true) as ->
      by (vm_compute; reflexivity).
    reflexivity.
Qed.

Example tags_are_correct :
  Check rt ["azurerm_resource_group"]
    (moduleRunner requireFooBar [taggedResource correctTags (moduleRange 5 14 8 8)]) []
  = Done None [].
Proof.
  cbn -[emitIssue]. unfold mbind, M_bind.
  rewrite (emitIssue_map rt _ _ _ correctTags) by done.
  by vm_compute.
Qed.

Example three_layers_nothing_missing :
  Check rt ["azurerm_resource_group"]
    (moduleRunner requireFour [taggedResource threeLayerTags (moduleRange 5 14 14 6)]) []
  = Done None [].
Proof.
  cbn -[emitIssue]. unfold mbind, M_bind.
  rewrite (emitIssue_map rt _ _ _ threeLayerTags) by done.
  by vm_compute.
Qed.

Example excluded_type_is_skipped :
  Check rt ["azurerm_resource_group"]
    (moduleRunner {| Tags := ["Foo"]; Exclude := ["azurerm_resource_group"] |}
       [untaggedResource]) []
  = Done None [].
Proof. reflexivity. Qed.
End test_suite.

(** * Beyond the claims *)

(** ** Layers *)

Lemma layers_is_object v layer : layer ∈ layers v → IsObjectType v = true.
Proof. destruct v; simpl; try done; intros H; inversion H. Qed.

Lemma elem_of_layers_object attrs layer :
  layer ∈ layers (ObjectVal attrs) ↔
  layer = attrs ∨ ∃ entry, entry ∈ attrs ∧ layer ∈ layers entry.2.
Proof.
  simpl. rewrite elem_of_cons, list_elem_of_In, in_flat_map.
  split; (intros [?|(entry & He & Hl)]; [by left | right; exists entry]).
  - by rewrite !list_elem_of_In.
  - by rewrite <- !list_elem_of_In.
Qed.

Lemma layerLacks_true name layer :
  layerLacks name layer = true ↔
  (name ∉ layer.*1) ∧ ∃ key p, (key, PrimitiveVal p) ∈ layer.
Proof.
  unfold layerLacks, hasKey. rewrite andb_true_iff, negb_true_iff, existsb_elem_of.
  split.
  - intros [Hkey ([key v] & He & Hp)]. split.
    + intros Hin. apply list_elem_of_fmap in Hin as ([k' v'] & -> & Hin).
      assert (existsb (λ entry, String.eqb entry.1 k') layer = true) as Hex.
      { apply existsb_elem_of. exists (k', v'). split; [done|]. apply String.eqb_refl. }
      simpl in Hkey. congruence.
    + destruct v; try discriminate. eauto.
  - intros [Hkey (key & p & He)]. split; [|by exists (key, PrimitiveVal p)].
    destruct (existsb _ layer) eqn:Hex; [|done].
    apply existsb_elem_of in Hex as ([k' v'] & Hin & Heq). simpl in Heq.
    apply String.eqb_eq in Heq as ->. exfalso. apply Hkey.
    apply list_elem_of_fmap. by exists (name, v').
Qed.

Lemma leafIn_layers name v :
  leafIn name v = true ↔ ∃ layer p, layer ∈ layers v ∧ (name, PrimitiveVal p) ∈ layer.
Proof.
  induction v as [| |p|attrs IH| | |elems|elems] using Value_nested_ind;
    try (split; [done | intros (layer & ? & Hin & _); inversion Hin]).
  rewrite Forall_forall in IH. rewrite leafIn_object. split.
  - intros ([key v] & He & [[Hp <-]|[Ho Hl]]); simpl in *.
    + destruct v; try discriminate. exists attrs, p. split; [|done].
      apply elem_of_layers_object. by left.
    + apply (IH _ He) in Hl as (layer & p & Hlayer & Hin). exists layer, p.
      split; [|done]. apply elem_of_layers_object. right. by exists (key, v).
  - intros (layer & p & Hlayer & Hin).
    apply elem_of_layers_object in Hlayer as [->|(entry & He & Hlayer)].
    + exists (name, PrimitiveVal p). split; [done|]. by left.
    + exists entry. split; [done|]. right. split; [by eapply layers_is_object|].
      apply (IH _ He). eauto.
Qed.

Lemma lacking_layers name v :
  lacking name v = true ↔ ∃ layer, layer ∈ layers v ∧ layerLacks name layer = true.
Proof.
  induction v as [| |p|attrs IH| | |elems|elems] using Value_nested_ind;
    try (split; [done | intros (layer & Hin & _); inversion Hin]).
  rewrite Forall_forall in IH. rewrite lacking_object. split.
  - intros [Hl|(entry & He & Hl)].
    + exists attrs. split; [|done]. apply elem_of_layers_object. by left.
    + apply (IH _ He) in Hl as (layer & Hlayer & Hl). exists layer.
      split; [|done]. apply elem_of_layers_object. right. eauto.
  - intros (layer & Hlayer & Hl).
    apply elem_of_layers_object in Hlayer as [->|(entry & He & Hlayer)]; [by left|].
    right. exists entry. split; [done|]. apply (IH _ He). eauto.
Qed.

(** ** More about the resolver *)

Lemma view_missing name m : (view name m).1 = true ↔ name ∈ missing m.
Proof. unfold view. simpl. apply bool_decide_eq_true. Qed.

Lemma view_included name m : (view name m).2 = true ↔ name ∈ tagsAlreadyIncluded m.
Proof. unfold view. simpl. apply bool_decide_eq_true. Qed.

Lemma total_cases config name v :
  (total config name v = Found ∧ name ∈ Tags config ∧ leafIn name v = true)
  ∨ (total config name v = Add ∧ name ∈ Tags config ∧ leafIn name v = false
       ∧ lacking name v = true)
  ∨ (total config name v = Keep
       ∧ ((name ∉ Tags config) ∨ (leafIn name v = false ∧ lacking name v = false))).
Proof.
  unfold total. case_bool_decide; [|naive_solver].
  destruct (leafIn name v), (lacking name v); naive_solver.
Qed.

Lemma join_idemp e : join e e = e.
Proof. by destruct e. Qed.

(** X2 — what the resolver reports for a [tags] object, exactly: a name
    is in the result if and only if it is required, no layer of the tree
    has a primitive entry of that name, and some layer that has a primitive
    entry has no key of that name. *)
Theorem missing_characterised config mapValue name :
  name ∈ missing (evaluateMissingTags config mapValue ∅ ∅) ↔
  name ∈ Tags config
  ∧ (∀ layer p, layer ∈ layers (ObjectVal mapValue) → (name, PrimitiveVal p) ∉ layer)
  ∧ (∃ layer key p, layer ∈ layers (ObjectVal mapValue)
       ∧ (key, PrimitiveVal p) ∈ layer ∧ (name ∉ layer.*1)).
Proof.
  rewrite missing_iff. split.
  - intros (Hreq & Hleaf & Hlack). split; [done|]. split.
    + intros layer p Hlayer Hin.
      assert (leafIn name (ObjectVal mapValue) = true) by (apply leafIn_layers; eauto).
      congruence.
    + apply lacking_layers in Hlack as (layer & Hlayer & Hl).
      apply layerLacks_true in Hl as (Hkey & key & p & Hin). eauto 10.
  - intros (Hreq & Hleaf & layer & key & p & Hlayer & Hin & Hkey). split; [done|]. split.
    + destruct (leafIn name (ObjectVal mapValue)) eqn:Hl; [|done].
      apply leafIn_layers in Hl as (layer' & p' & Hlayer' & Hin'). by destruct (Hleaf layer' p').
    + apply lacking_layers. exists layer. split; [done|]. apply layerLacks_true. eauto.
Qed.

(** X3 — what a call does to the two maps it is handed: a name is in
    [tagsAlreadyIncluded] afterwards if it was before or is a required name
    carried by a leaf; a required name carried by a leaf is not in
    [missing] afterwards, whatever was there before; and a name that is
    not required is in [missing] afterwards exactly if it was before. *)
Theorem evaluateMissingTags_on_given_maps config mapValue missing0 included0 name :
  let m := evaluateMissingTags config mapValue missing0 included0 in
  (name ∈ tagsAlreadyIncluded m ↔
     name ∈ included0 ∨ (name ∈ Tags config ∧ leafIn name (ObjectVal mapValue) = true))
  ∧ (name ∈ Tags config ∧ leafIn name (ObjectVal mapValue) = true → name ∉ missing m)
  ∧ (name ∉ Tags config → (name ∈ missing m ↔ name ∈ missing0)).
Proof.
  intros m.
  pose proof (evaluateMissingTags_view config name mapValue missing0 included0) as Hview.
  fold m in Hview.
  rewrite <- (view_included name m), <- !(view_missing name m), Hview.
  destruct (total_cases config name (ObjectVal mapValue))
    as [(-> & Hreq & Hleaf)|[(-> & Hreq & Hleaf & _)|(-> & [Hreq|[Hleaf _]])]];
    cbn [act fst snd];
    rewrite ?bool_decide_eq_true, ?orb_true_iff, ?negb_true_iff, ?bool_decide_eq_false;
    try rewrite Hleaf; intuition congruence.
Qed.

(** X4 — the two maps never overlap: if no name is in both [missing]
    and [tagsAlreadyIncluded] before a call, none is afterwards. *)
Theorem missing_and_included_disjoint config mapValue missing0 included0 :
  missing0 ## included0 →
  missing (evaluateMissingTags config mapValue missing0 included0)
    ## tagsAlreadyIncluded (evaluateMissingTags config mapValue missing0 included0).
Proof.
  intros Hdisj name Hm Hi.
  pose proof (evaluateMissingTags_view config name mapValue missing0 included0) as Hview.
  apply view_missing in Hm. apply view_included in Hi. rewrite Hview in Hm, Hi.
  specialize (Hdisj name).
  destruct (total config name (ObjectVal mapValue)); cbn [act fst snd] in Hm, Hi;
    try discriminate;
    apply bool_decide_eq_true in Hi;
    [ apply bool_decide_eq_true in Hm; by apply Hdisj
    | apply orb_true_iff in Hm as [Hm|Hm];
      [ apply bool_decide_eq_true in Hm; by apply Hdisj
      | apply negb_true_iff, bool_decide_eq_false in Hm; by apply Hm ] ].
Qed.

Lemma missing_and_included_disjoint_witness :
  (∅ : gset string) ## (∅ : gset string)
  ∧ missing (evaluateMissingTags requireFour crossDepthTags ∅ ∅)
      ## tagsAlreadyIncluded (evaluateMissingTags requireFour crossDepthTags ∅ ∅).
Proof.
  assert ((∅ : gset string) ## (∅ : gset string)) as Hdisj by (intros name Hin; inversion Hin).
  split; [exact Hdisj|].
  exact (missing_and_included_disjoint requireFour crossDepthTags ∅ ∅ Hdisj).
Defined.

(** X5 — a call repeated on the maps it has left changes nothing.  (The
    inner loop makes the same nested call once per required tag.) *)
Theorem evaluateMissingTags_idempotent config mapValue missing0 included0 :
  let m := evaluateMissingTags config mapValue missing0 included0 in
  evaluateMissingTags config mapValue (missing m) (tagsAlreadyIncluded m) = m.
Proof.
  intros m. apply TagMaps_view_eq. intros name.
  rewrite evaluateMissingTags_view.
  change (bool_decide (name ∈ missing m), bool_decide (name ∈ tagsAlreadyIncluded m))
    with (view name m).
  unfold m at 1. rewrite evaluateMissingTags_view.
  rewrite act_join, join_idemp. unfold m. by rewrite evaluateMissingTags_view.
Qed.

Lemma layers_flat mapValue :
  Forall (λ entry, IsPrimitiveType entry.2 = true) mapValue →
  layers (ObjectVal mapValue) = [mapValue].
Proof.
  intros Hflat. simpl. f_equal.
  induction Hflat as [|[key v] rest Hv _ IH]; [done|].
  simpl in *. destruct v; try discriminate. exact IH.
Qed.

(** X6 — a resource that carries every required tag passes: when each
    configured name is the key of a leaf somewhere in the tree, the
    resolver returns the empty set and no issue is emitted. *)
Theorem all_tags_present_no_issue rt config mapValue location issues :
  Forall (λ name, leafIn name (ObjectVal mapValue) = true) (Tags config) →
  missing (evaluateMissingTags config mapValue ∅ ∅) = ∅
  ∧ emitIssue rt (ObjectVal mapValue) config location issues = Done tt issues.
Proof.
  intros Hall. rewrite Forall_forall in Hall.
  assert (missing (evaluateMissingTags config mapValue ∅ ∅) = ∅) as Hmissing.
  { apply set_eq. intros name. rewrite missing_iff. split; [|set_solver].
    intros (Hreq & Hleaf & _). rewrite (Hall name Hreq) in Hleaf. discriminate. }
  split; [done|].
  rewrite (emitIssue_map rt _ _ _ mapValue) by done. cbv zeta. rewrite Hmissing.
  by rewrite bool_decide_eq_false_2 by (rewrite size_empty; lia).
Qed.

Lemma all_tags_present_no_issue_witness :
  Forall (λ name, leafIn name (ObjectVal threeLayerTags) = true) (Tags requireFour)
  ∧ missing (evaluateMissingTags requireFour threeLayerTags ∅ ∅) = ∅
  ∧ emitIssue sortedRuntime (ObjectVal threeLayerTags) requireFour (moduleRange 5 14 14 6) []
    = Done tt [].
Proof.
  assert (Forall (λ name, leafIn name (ObjectVal threeLayerTags) = true) (Tags requireFour))
    as Hall by (repeat constructor).
  split; [exact Hall|].
  exact (all_tags_present_no_issue sortedRuntime requireFour threeLayerTags
           (moduleRange 5 14 14 6) [] Hall).
Defined.

(** X7 — on a flat map the resolver is a set difference: when the map
    is not empty and all its values are primitive, the result is the
    configured tags that are not keys of the map. *)
Theorem flat_map_reports_difference config mapValue :
  Forall (λ entry, IsPrimitiveType entry.2 = true) mapValue →
  mapValue ≠ [] →
  missing (evaluateMissingTags config mapValue ∅ ∅)
  = list_to_set (Tags config) ∖ list_to_set (mapValue.*1).
Proof.
  intros Hflat Hne. apply set_eq. intros name.
  rewrite missing_iff, elem_of_difference, !elem_of_list_to_set.
  assert (leafIn name (ObjectVal mapValue) = true ↔ name ∈ mapValue.*1) as Hleaf.
  { rewrite leafIn_layers, (layers_flat _ Hflat). split.
    - intros (layer & p & Hlayer & Hin). apply list_elem_of_singleton in Hlayer as ->.
      apply list_elem_of_fmap. by exists (name, PrimitiveVal p).
    - intros Hin. apply list_elem_of_fmap in Hin as ([key v] & -> & Hin).
      rewrite Forall_forall in Hflat. specialize (Hflat _ Hin). simpl in Hflat.
      destruct v; try discriminate. exists mapValue, p. split; [by left | done]. }
  assert (lacking name (ObjectVal mapValue) = true ↔ name ∉ mapValue.*1) as Hlack.
  { rewrite lacking_layers, (layers_flat _ Hflat). split.
    - intros (layer & Hlayer & Hl). apply list_elem_of_singleton in Hlayer as ->.
      by apply layerLacks_true in Hl as [? _].
    - intros Hkey. exists mapValue. split; [by left|]. apply layerLacks_true.
      split; [done|]. destruct mapValue as [|[key v] rest]; [done|].
      apply Forall_cons in Hflat as [Hv _]. simpl in Hv. destruct v; try discriminate.
      exists key, p. by left. }
  rewrite Hlack. split; [naive_solver|].
  intros [Hreq Hkey]. split; [done|]. split; [|done].
  apply not_true_is_false. intros Hl. by apply Hleaf in Hl.
Qed.

Lemma flat_map_reports_difference_witness :
  Forall (λ entry, IsPrimitiveType entry.2 = true) lowercaseTags
  ∧ lowercaseTags ≠ []
  ∧ missing (evaluateMissingTags requireFooBar lowercaseTags ∅ ∅)
    = list_to_set (Tags requireFooBar) ∖ list_to_set (lowercaseTags.*1).
Proof.
  assert (Forall (λ entry, IsPrimitiveType entry.2 = true) lowercaseTags)
    as Hflat by (repeat constructor).
  assert (lowercaseTags ≠ []) as Hne by discriminate.
  split; [exact Hflat|]. split; [exact Hne|].
  exact (flat_map_reports_difference requireFooBar lowercaseTags Hflat Hne).
Defined.

Lemma total_wrapped config name key mapValue :
  total config name (ObjectVal [(key, ObjectVal mapValue)])
  = total config name (ObjectVal mapValue).
Proof.
  unfold total.
  change (leafIn name (ObjectVal [(key, ObjectVal mapValue)]))
    with (leafIn name (ObjectVal mapValue) || false).
  change (lacking name (ObjectVal [(key, ObjectVal mapValue)]))
    with (layerLacks name [(key, ObjectVal mapValue)]
          || (lacking name (ObjectVal mapValue) || false)).
  unfold layerLacks. cbn [existsb IsPrimitiveType snd].
  by rewrite !orb_false_r, andb_false_r.
Qed.

(** X8 — putting the whole map under one more key changes nothing:
    [tags = { key = { ... } }] gives the maps that [tags = { ... }] gives,
    whatever the key is. *)
Theorem evaluateMissingTags_wrapped config key mapValue missing0 included0 :
  evaluateMissingTags config [(key, ObjectVal mapValue)] missing0 included0
  = evaluateMissingTags config mapValue missing0 included0.
Proof.
  apply TagMaps_view_eq. intros name.
  by rewrite !evaluateMissingTags_view, total_wrapped.
Qed.

(** X9 — two groupings side by side are resolved one after the other:
    for [tags = { key1 = { ... }, key2 = { ... } }] the maps end as if
    the resolver had run on the first grouping and then, on the maps it
    left, on the second. *)
Theorem evaluateMissingTags_siblings config key1 mapValue1 key2 mapValue2 missing0 included0 :
  let m1 := evaluateMissingTags config mapValue1 missing0 included0 in
  evaluateMissingTags config [(key1, ObjectVal mapValue1); (key2, ObjectVal mapValue2)]
    missing0 included0
  = evaluateMissingTags config mapValue2 (missing m1) (tagsAlreadyIncluded m1).
Proof.
  intros m1. apply TagMaps_view_eq. intros name.
  rewrite !evaluateMissingTags_view.
  change (bool_decide (name ∈ missing m1), bool_decide (name ∈ tagsAlreadyIncluded m1))
    with (view name m1).
  unfold m1. rewrite evaluateMissingTags_view, act_join. f_equal.
  unfold total.
  change (leafIn name (ObjectVal [(key1, ObjectVal mapValue1); (key2, ObjectVal mapValue2)]))
    with (leafIn name (ObjectVal mapValue1) || (leafIn name (ObjectVal mapValue2) || false)).
  change (lacking name (ObjectVal [(key1, ObjectVal mapValue1); (key2, ObjectVal mapValue2)]))
    with (layerLacks name [(key1, ObjectVal mapValue1); (key2, ObjectVal mapValue2)]
          || (lacking name (ObjectVal mapValue1)
              || (lacking name (ObjectVal mapValue2) || false))).
  unfold layerLacks. cbn [existsb IsPrimitiveType snd].
  rewrite !orb_false_r, andb_false_r. cbn [orb].
  case_bool_decide; [|done].
  by destruct (leafIn name (ObjectVal mapValue1)), (leafIn name (ObjectVal mapValue2)),
    (lacking name (ObjectVal mapValue1)), (lacking name (ObjectVal mapValue2)).
Qed.

Lemma rangeKeysIn_perm s names : names ≡ₚ elements s → ∀ s', rangeKeysIn s names s' ≡ₚ elements s'.
Proof. intros Hperm s'. unfold rangeKeysIn. case_decide; [by subst | done]. Qed.

(** X10 — the order of the names in the message is not fixed: when the
    attribute is present and tags are missing, every ordering of the
    missing names is the message of some run, since the names are read
    off a Go map. *)
Theorem message_order_is_any config mapValue names location issues :
  names ≡ₚ elements (missing (evaluateMissingTags config mapValue ∅ ∅)) →
  names ≠ [] →
  ∃ rt, emitIssue rt (ObjectVal mapValue) config location issues
        = Done tt (issues ++
            [{| Message := "The resource is missing the following tags: "
                           +:+ Join names ", " +:+ ".";
                IssueRange := location |}]).
Proof.
  intros Hperm Hne.
  set (M := missing (evaluateMissingTags config mapValue ∅ ∅)) in *.
  exists {| rangeKeys := rangeKeysIn M names; rangeKeys_perm := rangeKeysIn_perm M names Hperm |}.
  rewrite (emitIssue_map _ _ _ _ mapValue) by done. cbv zeta. fold M.
  rewrite bool_decide_eq_true_2.
  - unfold rangeKeys, rangeKeysIn. by rewrite decide_True.
  - apply size_pos_iff. intros HM. rewrite HM, elements_empty in Hperm.
    by apply Permutation_nil_r in Hperm.
Qed.

Lemma message_order_is_any_witness :
  (["Bar"; "Foo"] ≡ₚ elements (missing (evaluateMissingTags requireFooBar lowercaseTags ∅ ∅))
   ∧ ∃ rt, emitIssue rt (ObjectVal lowercaseTags) requireFooBar (moduleRange 5 12 8 6) []
           = Done tt [{| Message := "The resource is missing the following tags: Bar, Foo.";
                         IssueRange := moduleRange 5 12 8 6 |}])
  ∧ (["Foo"; "Bar"] ≡ₚ elements (missing (evaluateMissingTags requireFooBar lowercaseTags ∅ ∅))
     ∧ ∃ rt, emitIssue rt (ObjectVal lowercaseTags) requireFooBar (moduleRange 5 12 8 6) []
             = Done tt [{| Message := "The resource is missing the following tags: Foo, Bar.";
                           IssueRange := moduleRange 5 12 8 6 |}]).
Proof.
  assert (["Bar"; "Foo"] ≡ₚ elements (missing (evaluateMissingTags requireFooBar lowercaseTags ∅ ∅)))
    as Hperm by (vm_compute; first [reflexivity | apply perm_swap]).
  assert (["Foo"; "Bar"] ≡ₚ elements (missing (evaluateMissingTags requireFooBar lowercaseTags ∅ ∅)))
    as Hperm' by (vm_compute; first [reflexivity | apply perm_swap]).
  split; (split; [assumption|]).
  - exact (message_order_is_any requireFooBar lowercaseTags ["Bar"; "Foo"]
             (moduleRange 5 12 8 6) [] Hperm ltac:(discriminate)).
  - exact (message_order_is_any requireFooBar lowercaseTags ["Foo"; "Bar"]
             (moduleRange 5 12 8 6) [] Hperm' ltac:(discriminate)).
Defined.

(** X11 — an empty list of required tags: a [tags] attribute that
    converts to a map is then never reported, whatever it holds, while a
    missing or null attribute still is, by a message that names no tag. *)
Theorem empty_tag_list_edge rt config tags mapValue location issues :
  Tags config = [] →
  (IsNull tags = false → AsValueMap tags = Some mapValue →
     emitIssue rt tags config location issues = Done tt issues)
  ∧ emitIssue rt NilVal config location issues
    = Done tt (issues ++
        [{| Message := "The resource is missing the following tags: .";
            IssueRange := location |}]).
Proof.
  intros Hempty. split.
  - intros Hnull Hmap. rewrite (emitIssue_map rt _ _ _ mapValue) by done. cbv zeta.
    assert (missing (evaluateMissingTags config mapValue ∅ ∅) = ∅) as ->.
    { apply set_eq. intros name. rewrite missing_iff, Hempty. set_solver. }
    by rewrite bool_decide_eq_false_2 by (rewrite size_empty; lia).
  - unfold emitIssue. simpl. by rewrite Hempty.
Qed.

Lemma empty_tag_list_edge_witness :
  Tags requireNothing = []
  ∧ emitIssue sortedRuntime (ObjectVal lowercaseTags) requireNothing (moduleRange 5 12 8 6) []
    = Done tt []
  ∧ emitIssue sortedRuntime NilVal requireNothing (moduleRange 2 3 2 46) []
    = Done tt [{| Message := "The resource is missing the following tags: .";
                  IssueRange := moduleRange 2 3 2 46 |}].
Proof.
  assert (Tags requireNothing = []) as Hempty by reflexivity.
  split; [exact Hempty|]. split.
  - exact (proj1 (empty_tag_list_edge sortedRuntime requireNothing (ObjectVal lowercaseTags)
                    lowercaseTags (moduleRange 5 12 8 6) [] Hempty) eq_refl eq_refl).
  - exact (proj2 (empty_tag_list_edge sortedRuntime requireNothing NilVal []
                    (moduleRange 2 3 2 46) [] Hempty)).
Defined.

(** ** More about [Check] *)

Lemma stringInSlice_true a l : stringInSlice a l = true ↔ a ∈ l.
Proof.
  induction l as [|b rest IH]; simpl.
  - split; [discriminate | intros Hin; inversion Hin].
  - destruct (String.eqb_spec b a) as [->|Hne].
    + split; [intros _; by left | done].
    + rewrite IH. split; [intros Hin; by right|].
      intros Hin. apply elem_of_cons in Hin as [->|Hin]; done.
Qed.

(** X1 — [stringInSlice] decides membership: it returns true exactly
    when the string is an element of the slice. *)
Theorem stringInSlice_decides_membership a l :
  stringInSlice a l = bool_decide (a ∈ l).
Proof.
  destruct (stringInSlice a l) eqn:Hin; symmetry.
  - apply bool_decide_eq_true, stringInSlice_true, Hin.
  - apply bool_decide_eq_false. intros Hel. apply stringInSlice_true in Hel. congruence.
Qed.

(** [emitIssue] either panics or leaves the issues with at most one more,
    placed at the location it was given. *)
Lemma emitIssue_appends rt tags config location issues issues' :
  emitIssue rt tags config location issues = Done tt issues' →
  issues' = issues
  ∨ ∃ message, issues' = (issues ++ [{| Message := message; IssueRange := location |}])%list.
Proof.
  unfold emitIssue. destruct (IsNull tags).
  - intros [= <-]. eauto.
  - destruct (AsValueMap tags) as [mapValue|]; [|discriminate].
    cbv zeta. case_bool_decide; intros [= <-]; eauto.
Qed.

Lemma checkBlock_returns rt config resource issues r issues' :
  checkBlock rt config None resource issues = Done r issues' →
  r = None
  ∧ (issues' = issues
     ∨ ∃ message, issues' = (issues ++
         [{| Message := message; IssueRange := issueLocation resource |}])%list).
Proof.
  unfold checkBlock, issueLocation. destruct (tagsAttribute resource) as [attribute|];
    cbn [EnsureNoError]; unfold mbind, M_bind;
    match goal with |- context [emitIssue rt ?v config ?loc issues] =>
      destruct (emitIssue rt v config loc issues) as [[] out|] eqn:Hemit end;
    try discriminate; intros [= <- <-]; (split; [done|]);
    by apply emitIssue_appends in Hemit.
Qed.

Lemma checkBlocks_returns rt config blocks issues r issues' :
  checkBlocks rt config None blocks issues = Done r issues' →
  r = None
  ∧ ∃ added, issues' = (issues ++ added)%list
      ∧ (length added ≤ length blocks)%nat
      ∧ Forall (λ issue, ∃ resource, resource ∈ blocks
                           ∧ IssueRange issue = issueLocation resource) added.
Proof.
  revert issues. induction blocks as [|resource rest IH]; intros issues; simpl.
  - intros [= <- <-]. split; [done|]. exists []. by rewrite app_nil_r.
  - unfold mbind, M_bind at 1.
    destruct (checkBlock rt config None resource issues) as [err out|] eqn:Hblock;
      [|discriminate].
    apply checkBlock_returns in Hblock as [-> Hout].
    assert ((match tagsAttribute resource with
             | Some _ => checkBlocks rt config None rest
             | None => checkBlocks rt config None rest
             end) = checkBlocks rt config None rest) as -> by by destruct (tagsAttribute resource).
    intros Hrest. apply IH in Hrest as (-> & added & -> & Hlen & Hloc). split; [done|].
    assert (Forall (λ issue, ∃ resource0, resource0 ∈ resource :: rest
                     ∧ IssueRange issue = issueLocation resource0) added) as Hloc'.
    { eapply Forall_impl; [exact Hloc|]. intros issue (b & Hb & Hr). exists b.
      split; [by right | done]. }
    destruct Hout as [->|(message & ->)].
    + exists added. split; [done|]. split; [simpl; lia | done].
    + exists ({| Message := message; IssueRange := issueLocation resource |} :: added).
      split; [by rewrite <- app_assoc|]. split; [simpl; lia|].
      constructor; [|done]. exists resource. split; [by left | done].
Qed.

(** X12 — excluded resource types are skipped altogether: [Check] does
    what it would do if the types named in [exclude] were not in the table
    of resource types; the runner is not asked for their content. *)
Theorem excluded_types_are_skipped rt runner config resourceTypes issues :
  checkResourceTypes rt runner config resourceTypes issues
  = checkResourceTypes rt runner config
      (filter (λ resourceType, resourceType ∉ Exclude config) resourceTypes) issues.
Proof.
  revert issues. induction resourceTypes as [|resourceType rest IH]; intros issues; [done|].
  rewrite filter_cons. simpl.
  destruct (stringInSlice resourceType (Exclude config)) eqn:Hex.
  - apply stringInSlice_true in Hex. rewrite decide_False by (intros Hn; by apply Hn).
    apply IH.
  - assert (resourceType ∉ Exclude config) as Hn
      by (intros Hin; apply stringInSlice_true in Hin; congruence).
    rewrite decide_True by done. simpl. rewrite Hex.
    destruct (GetResourceContent runner resourceType) as [blocks|e]; [|done].
    unfold mbind, M_bind.
    destruct (checkBlocks rt config None blocks issues) as [[e|] out|];
      first [done | apply IH].
Qed.

Lemma checkResourceTypes_app rt runner config types1 types2 issues :
  checkResourceTypes rt runner config (types1 ++ types2) issues
  = match checkResourceTypes rt runner config types1 issues with
    | Done None issues1 => checkResourceTypes rt runner config types2 issues1
    | Done (Some e) issues1 => Done (Some e) issues1
    | Panic => Panic
    end.
Proof.
  revert issues. induction types1 as [|resourceType rest IH]; intros issues; [done|].
  simpl. destruct (stringInSlice resourceType (Exclude config)); [apply IH|].
  destruct (GetResourceContent runner resourceType) as [blocks|e]; [|done].
  unfold mbind, M_bind.
  destruct (checkBlocks rt config None blocks issues) as [[e|] out|];
    first [done | apply IH].
Qed.

(** X13 — [Check] has no error of its own: an error it returns is the
    one [DecodeRuleConfig] returned, or the one [GetResourceContent]
    returned for a resource type of the table that is not excluded.  The
    loop over the resources never produces one. *)
Theorem Check_errors_come_from_runner rt Resources runner issues e issues' :
  Check rt Resources runner issues = Done (Some e) issues' →
  DecodeRuleConfig runner = Err e
  ∨ ∃ config resourceType,
      DecodeRuleConfig runner = Ok config
      ∧ resourceType ∈ Resources
      ∧ (resourceType ∉ Exclude config)
      ∧ GetResourceContent runner resourceType = Err e.
Proof.
  unfold Check. destruct (DecodeRuleConfig runner) as [config|e0].
  2:{ intros [= -> _]. by left. }
  intros Hcheck. right. exists config.
  revert issues Hcheck. induction Resources as [|resourceType rest IH]; intros issues;
    [discriminate|].
  simpl. destruct (stringInSlice resourceType (Exclude config)) eqn:Hex.
  { intros Hrest. destruct (IH _ Hrest) as (t & ? & ? & ? & ?).
    exists t. repeat split; try done. by right. }
  destruct (GetResourceContent runner resourceType) as [blocks|e0] eqn:Hcontent.
  - unfold mbind, M_bind.
    destruct (checkBlocks rt config None blocks issues) as [returned out|] eqn:Hblocks;
      [|discriminate].
    apply checkBlocks_returns in Hblocks as [-> _].
    intros Hrest. destruct (IH _ Hrest) as (t & ? & ? & ? & ?).
    exists t. repeat split; try done. by right.
  - intros [= -> _]. exists resourceType. repeat split; try done; [by left|].
    intros Hin. apply stringInSlice_true in Hin. congruence.
Qed.

Lemma Check_errors_come_from_runner_witness :
  Check sortedRuntime ["azurerm_resource_group"; "azurerm_storage_account"] brokenRunner []
  = Done (Some (OtherError "failed to read the module")) [untaggedIssue requireFooBar untaggedResource]
  ∧ (DecodeRuleConfig brokenRunner = Err (OtherError "failed to read the module")
     ∨ ∃ config resourceType,
         DecodeRuleConfig brokenRunner = Ok config
         ∧ resourceType ∈ ["azurerm_resource_group"; "azurerm_storage_account"]
         ∧ (resourceType ∉ Exclude config)
         ∧ GetResourceContent brokenRunner resourceType
           = Err (OtherError "failed to read the module")).
Proof.
  assert (Check sortedRuntime ["azurerm_resource_group"; "azurerm_storage_account"]
            brokenRunner []
          = Done (Some (OtherError "failed to read the module"))
              [untaggedIssue requireFooBar untaggedResource]) as Hcheck by reflexivity.
  split; [exact Hcheck|].
  exact (Check_errors_come_from_runner sortedRuntime _ brokenRunner [] _ _ Hcheck).
Defined.

(** X14 — at most one issue per resource, placed at that resource:
    [Check] only appends to the issues, it appends no more issues than
    there are resource blocks of the types it walks, and every issue it
    appends lies at the [tags] attribute of one of these blocks, or at the
    declaration of a block that has no such attribute. *)
Theorem Check_one_issue_per_resource_at_most rt runner config resourceTypes issues r issues' :
  checkResourceTypes rt runner config resourceTypes issues = Done r issues' →
  ∃ added,
    issues' = (issues ++ added)%list
    ∧ (length added ≤ length (checkedBlocks runner config resourceTypes))%nat
    ∧ Forall (λ issue, ∃ resource,
                resource ∈ checkedBlocks runner config resourceTypes
                ∧ IssueRange issue = issueLocation resource) added.
Proof.
  revert issues. induction resourceTypes as [|resourceType rest IH]; intros issues.
  { cbn. intros [= <- <-]. exists []. rewrite app_nil_r.
    split; [done|]. split; [simpl; lia | constructor]. }
  simpl. destruct (stringInSlice resourceType (Exclude config)); [apply IH|].
  destruct (GetResourceContent runner resourceType) as [blocks|e].
  2:{ cbn. intros [= <- <-]. exists []. rewrite app_nil_r.
    split; [done|]. split; [simpl; lia | constructor]. }
  unfold mbind, M_bind.
  destruct (checkBlocks rt config None blocks issues) as [returned out|] eqn:Hblocks;
    [|discriminate].
  apply checkBlocks_returns in Hblocks as (-> & added1 & -> & Hlen1 & Hloc1).
  intros Hrest. apply IH in Hrest as (added2 & -> & Hlen2 & Hloc2).
  exists (added1 ++ added2)%list. split; [by rewrite app_assoc|]. split.
  - rewrite !length_app. lia.
  - apply Forall_app. split; (eapply Forall_impl; [eassumption|]);
      intros issue (resource & Hin & Hrange); exists resource;
      (split; [|done]); apply elem_of_app; [by left | by right].
Qed.

Lemma Check_one_issue_per_resource_at_most_witness :
  let runner := moduleRunner requireFooBar
                  [untaggedResource; taggedResource correctTags (moduleRange 5 14 8 8)] in
  checkResourceTypes sortedRuntime runner requireFooBar ["azurerm_resource_group"] []
  = Done None [untaggedIssue requireFooBar untaggedResource]
  ∧ ∃ added,
      [untaggedIssue requireFooBar untaggedResource] = ([] ++ added)%list
      ∧ (length added
         ≤ length (checkedBlocks runner requireFooBar ["azurerm_resource_group"]))%nat
      ∧ Forall (λ issue, ∃ resource,
                  resource ∈ checkedBlocks runner requireFooBar ["azurerm_resource_group"]
                  ∧ IssueRange issue = issueLocation resource) added.
Proof.
  intros runner.
  assert (checkResourceTypes sortedRuntime runner requireFooBar ["azurerm_resource_group"] []
          = Done None [untaggedIssue requireFooBar untaggedResource]) as Hcheck
    by (vm_compute; reflexivity).
  split; [exact Hcheck|].
  exact (Check_one_issue_per_resource_at_most sortedRuntime runner requireFooBar
           ["azurerm_resource_group"] [] None _ Hcheck).
Defined.



(** X16 — an error of [GetResourceContent] ends the check at once: the
    issues of the resource types walked before stay recorded, the error is
    returned, and the types after the failing one are not looked at. *)
Theorem content_error_stops_Check rt runner config before resourceType after issues issues1 e :
  checkResourceTypes rt runner config before issues = Done None issues1 →
  resourceType ∉ Exclude config →
  GetResourceContent runner resourceType = Err e →
  checkResourceTypes rt runner config (before ++ resourceType :: after) issues
  = Done (Some e) issues1.
Proof.
  intros Hbefore Hex Hcontent. rewrite checkResourceTypes_app, Hbefore. simpl.
  destruct (stringInSlice resourceType (Exclude config)) eqn:Hin.
  - by apply stringInSlice_true in Hin.
  - by rewrite Hcontent.
Qed.

Lemma content_error_stops_Check_witness :
  checkResourceTypes sortedRuntime brokenRunner requireFooBar ["azurerm_resource_group"] []
  = Done None [untaggedIssue requireFooBar untaggedResource]
  ∧ ("azurerm_storage_account" ∉ Exclude requireFooBar)
  ∧ GetResourceContent brokenRunner "azurerm_storage_account"
    = Err (OtherError "failed to read the module")
  ∧ checkResourceTypes sortedRuntime brokenRunner requireFooBar
      (["azurerm_resource_group"] ++ "azurerm_storage_account" :: ["azurerm_virtual_network"]) []
    = Done (Some (OtherError "failed to read the module"))
        [untaggedIssue requireFooBar untaggedResource].
Proof.
  assert (checkResourceTypes sortedRuntime brokenRunner requireFooBar
            ["azurerm_resource_group"] []
          = Done None [untaggedIssue requireFooBar untaggedResource]) as Hbefore by reflexivity.
  assert ("azurerm_storage_account" ∉ Exclude requireFooBar) as Hex
    by (intros Hin; inversion Hin).
  assert (GetResourceContent brokenRunner "azurerm_storage_account"
          = Err (OtherError "failed to read the module")) as Hcontent by reflexivity.
  split; [exact Hbefore|]. split; [exact Hex|]. split; [exact Hcontent|].
  exact (content_error_stops_Check sortedRuntime brokenRunner requireFooBar _ _
           ["azurerm_virtual_network"] [] _ _ Hbefore Hex Hcontent).
Defined.
